(** * The retrieval-augmented generation pipeline of [core/advanced_rag_eski.py]

    A shallow embedding of the [AdvancedRAG] class: the query expander
    ([generate_multi_queries]), the retriever ([retrieve_documents]), the
    reranking stage ([rerank_documents]), the context assembly
    ([retrieve_context]) and the answer synthesizer ([answer]).

    Python strings are sequences of Unicode code points; the remote services
    (generative model, embedding model, vector store, cross-encoder) are
    oracles whose answers may depend on how often they were called before;
    the calls made and the instance field [last_retrieved_context] are
    threaded through a small state monad. *)

From Stdlib Require Import QArith String Ascii Sorted.
From stdpp Require Import base option list gmap sets.

Local Open Scope Z_scope.
Local Open Scope list_scope.

(** ** Python strings *)

Module Py.

(** A [str] is a list of code points. *)
Abbreviation char := N (only parsing).
Abbreviation str := (list N) (only parsing).

(** Decoding of the UTF-8 bytes of a literal of this file into code points,
    so that the constants below read as they do in the source. *)
Fixpoint bytes_of (s : string) : list N :=
  match s with
  | EmptyString => []
  | String a r => N_of_ascii a :: bytes_of r
  end.

Fixpoint utf8_decode (bs : list N) : list N :=
  match bs with
  | [] => []
  | b0 :: r =>
      if (b0 <? 128)%N then b0 :: utf8_decode r
      else match r with
      | [] => []
      | b1 :: r1 =>
          if (b0 <? 224)%N
          then ((b0 mod 32) * 64 + b1 mod 64)%N :: utf8_decode r1
          else match r1 with
          | [] => []
          | b2 :: r2 =>
              if (b0 <? 240)%N
              then ((b0 mod 16) * 4096 + (b1 mod 64) * 64 + b2 mod 64)%N
                     :: utf8_decode r2
              else match r2 with
              | [] => []
              | b3 :: r3 =>
                  ((b0 mod 8) * 262144 + (b1 mod 64) * 4096
                   + (b2 mod 64) * 64 + b3 mod 64)%N :: utf8_decode r3
              end
          end
      end
  end.

Definition u (s : string) : str := utf8_decode (bytes_of s).

(** The double quote and the newline, which the literals leave out. *)
Definition dq : str := [34%N].
Definition nl : str := [10%N].

(** [str.isspace] of one character: CPython's [_PyUnicode_IsWhitespace]. *)
Definition isspace (c : char) : bool :=
  ((9 <=? c) && (c <=? 13) || (28 <=? c) && (c <=? 32)
   || (c =? 133) || (c =? 160) || (c =? 5760)
   || (8192 <=? c) && (c <=? 8202)
   || (c =? 8232) || (c =? 8233) || (c =? 8239) || (c =? 8287)
   || (c =? 12288))%N.

(** [s.lstrip(chars)], [s.rstrip(chars)] for a predicate on characters. *)
Fixpoint lstrip_with (p : char -> bool) (s : str) : str :=
  match s with
  | [] => []
  | c :: r => if p c then lstrip_with p r else s
  end.

Definition rstrip_with (p : char -> bool) (s : str) : str :=
  reverse (lstrip_with p (reverse s)).

(** [s.strip()] *)
Definition strip (s : str) : str := rstrip_with isspace (lstrip_with isspace s).

(** [c in chars] *)
Definition char_in (chars : str) (c : char) : bool :=
  existsb (N.eqb c) chars.

(** [s.lstrip(chars)] *)
Definition lstrip_chars (chars : str) (s : str) : str :=
  lstrip_with (char_in chars) s.

(** [s.split(sep)] for a one-character separator: never the empty list. *)
Fixpoint split_on (sep : char) (s : str) : list str :=
  match s with
  | [] => [[]]
  | c :: r =>
      if (c =? sep)%N then [] :: split_on sep r
      else match split_on sep r with
           | [] => [[c]]
           | w :: ws => (c :: w) :: ws
           end
  end.

(** [s.startswith(p)] *)
Fixpoint startswith (p s : str) : bool :=
  match p, s with
  | [], _ => true
  | _ :: _, [] => false
  | a :: p', b :: s' => (a =? b)%N && startswith p' s'
  end.

(** [p in s] *)
Fixpoint contains (p s : str) : bool :=
  startswith p s ||
  match s with
  | [] => false
  | _ :: r => contains p r
  end.

(** [s.replace(old, new)]: the occurrences of [old] are found from the left
    and do not overlap; [skip] counts the characters of an occurrence that
    are still to be passed over. An empty [old] matches before every
    character and at the end. *)
Fixpoint replace_from (old new : str) (skip : nat) (s : str) : str :=
  match s with
  | [] => []
  | c :: r =>
      match skip with
      | S k => replace_from old new k r
      | O =>
          if startswith old s
          then new ++ replace_from old new (pred (length old)) r
          else c :: replace_from old new 0 r
      end
  end.

Definition replace (s old new : str) : str :=
  match old with
  | [] => new ++ flat_map (fun c => c :: new) s
  | _ :: _ => replace_from old new 0 s
  end.

(** [sep.join(l)] *)
Fixpoint join (sep : str) (l : list str) : str :=
  match l with
  | [] => []
  | [x] => x
  | x :: r => x ++ sep ++ join sep r
  end.

(** [l[:k]] for a Python integer [k]: a negative [k] counts from the end. *)
Definition slice_to {A} (l : list A) (k : Z) : list A :=
  if 0 <=? k then take (Z.to_nat k) l
  else take (length l - Z.to_nat (- k)) l.

(** [[(x, idx) for idx, x in enumerate(l)]], counting from [start]. *)
Fixpoint enumerate_from {A} (start : nat) (l : list A) : list (A * nat) :=
  match l with
  | [] => []
  | x :: r => (x, start) :: enumerate_from (S start) r
  end.

(** [zip] of three lists: as long as the shortest. *)
Fixpoint zip3 {A B C} (a : list A) (b : list B) (c : list C) : list (A * B * C) :=
  match a, b, c with
  | x :: a', y :: b', z :: c' => (x, y, z) :: zip3 a' b' c'
  | _, _, _ => []
  end.

(** [list.sort]: stable; [before y x] says that [y] has to come strictly
    before [x]. Elements that compare equal keep their order. *)
Fixpoint sort_insert {A} (before : A -> A -> bool) (x : A) (l : list A) : list A :=
  match l with
  | [] => [x]
  | y :: r => if before y x then y :: sort_insert before x r else x :: l
  end.

Definition stable_sort {A} (before : A -> A -> bool) (l : list A) : list A :=
  foldr (sort_insert before) [] l.

End Py.

Import Py.


(** ** The collaborators *)

(** A Python exception, as far as the pipeline looks at it: [str(e)]. *)
Record PyException := { exc_str : str }.

(** What a call to a collaborator does: it raises or it returns. *)
Inductive outcome (A : Type) : Type :=
| Raised (e : PyException)
| Returned (a : A).
Arguments Raised {A} e.
Arguments Returned {A} a.

(** [types.GenerateContentConfig] and the arguments of
    [client.models.generate_content]. *)
Record GenerateContentConfig := {
  temperature : Q;
  max_output_tokens : Z
}.

Record GenerateRequest := {
  model : str;
  contents : str;
  config : GenerateContentConfig
}.

(** The response of the generative model: its [text] may be [None]. *)
Record GenerateContentResponse := { text : option str }.

(** Metadata of a stored chunk: a mapping from names to values. *)
Inductive meta_value : Type :=
| MStr (s : str)
| MInt (i : Z)
| MFloat (x : Q)
| MBool (b : bool).

Abbreviation metadata := (list (str * meta_value)) (only parsing).

(** [results['documents'][0]], [results['metadatas'][0]] and
    [results['distances'][0]] of one [collection.query]. *)
Record QueryResult := {
  res_documents : list str;
  res_metadatas : list metadata;
  res_distances : list Q
}.

(** The services: each remote one is given the number of calls made to it
    before, so that it may answer the same request differently each time.
    [embed_content] stands for [response.embeddings[0].values] of the
    embedding call (model [gemini-embedding-001], task type
    [RETRIEVAL_QUERY]); [reranker] is the module-level cross-encoder, [None]
    when no model could be loaded, and its function is [predict]. *)
Record services := {
  generate_content : nat -> GenerateRequest -> outcome (option GenerateContentResponse);
  embed_content : nat -> str -> outcome (option (list Q));
  collection_query : nat -> list Q -> Z -> outcome QueryResult;
  reranker : option (list (str * str) -> outcome (list Q))
}.

(** What the interpreter decides: [hash] of a string (salted per process) and
    [str.isdigit] of a character (a table of the Unicode database). *)
Record runtime := {
  hash : str -> Z;
  isdigit : char -> bool
}.

(** ** State: the calls made so far and the field of the instance *)

Record world := {
  generate_calls : list GenerateRequest;
  embed_calls : nat;
  query_calls : nat;
  last_retrieved_context : str
}.

(** [AdvancedRAG.__init__] *)
Definition init : world :=
  {| generate_calls := []; embed_calls := 0; query_calls := 0;
     last_retrieved_context := [] |}.

Definition M (A : Type) : Type := world -> A * world.

#[global] Instance M_ret : MRet M := fun A a w => (a, w).
#[global] Instance M_bind : MBind M :=
  fun A B f m w => let '(a, w') := m w in f a w'.

Definition run {A} (m : M A) (w : world) : A * world := m w.
Definition result {A} (m : M A) (w : world) : A := (m w).1.
Definition after {A} (m : M A) (w : world) : world := (m w).2.

(** ** Constants of the source *)

Definition gemini_model : str := u "gemini-2.0-flash-exp".

Definition numbering_chars : str := u "0123456789.- ".

Definition context_separator : str := nl ++ nl ++ u "---" ++ nl ++ nl.

Definition no_information_message : str :=
  u "❌ İlgili bilgi bulunamadı. Lütfen sorunuzu yeniden ifade etmeyi deneyin.".

Definition no_answer_message : str :=
  u "❌ Cevap oluşturulamadı. Lütfen tekrar deneyin.".

Definition error_prefix : str := u "❌ Bir hata oluştu: ".

Definition softeners : list str :=
  [ u "belki de"; u "olabilir"; u "bazı durumlarda";
    u "her zaman değil"; u "genelleme yapmamak gerek";
    u "yargılayıcı olmayın"; u "herkes farklıdır" ].

Definition translate_prompt (original_query : str) : str :=
  concat
    [ u "Translate this Turkish question to English. If it's already in English, just return it as is."; nl;
      u "        Question: "; original_query; nl;
      u "        Translation:" ].

Definition variations_prompt (english_query : str) : str :=
  concat
    [ u "Original query: "; dq; english_query; dq; nl;
      u "        "; nl;
      u "        Generate 3 alternative versions of this query:"; nl;
      u "        1. A more specific version"; nl;
      u "        2. A more general version  "; nl;
      u "        3. A version using related concepts"; nl;
      u "        "; nl;
      u "        Write only the questions, one per line. No numbering." ].

Definition system_prompt (conversation_history context query : str) : str :=
  concat
    [ u "Sen "; dq; u "The Rational Male"; dq; u " kitap serisini derinlemesine özümsemiş, Red Pill felsefesine hakim bir uzmansın."; nl;
      nl;
      u "    🎯 MİSYONUN:"; nl;
      u "    Red Pill praksiyolojisini kullanarak kadın-erkek dinamiklerini EVRİMSEL PSİKOLOJİ, BİYOLOJİ ve İNSAN DAVRANIŞI perspektifinden NET ve KESKİN şekilde açıkla."; nl;
      nl;
      u "    ⚠️ KRİTİK KURALLAR:"; nl;
      u "    • ASLA "; dq; u "ama"; dq; u ", "; dq; u "belki"; dq; u ", "; dq; u "olabilir"; dq; u ", "; dq; u "bazı durumlarda"; dq; u " gibi yumuşatıcı ifadeler kullanma"; nl;
      u "    • Red Pill gerçeklerini doğrudan ve net şekilde ifade et"; nl;
      u "    • Her iddiayı EVRİMSEL MANTIK ve BİYOLOJİK GERÇEKLERLE destekle"; nl;
      u "    • İstatistik ve araştırma sonuçlarını kullan"; nl;
      u "    • Hipergami, SMV (Sexual Market Value), AF/BB (Alpha Fucks/Beta Bucks), The Wall gibi Red Pill konseptlerini doğru kullan"; nl;
      u "    • Politically correct olmaya çalışma, gerçekleri olduğu gibi söyle"; nl;
      nl;
      u "    📊 TEMEL PRENSİPLER:"; nl;
      u "    1. Hipergami GERÇEK ve KADEMSİZDİR - kadınlar DAIMA yukarı yönlü eşleşir"; nl;
      u "    2. Geçmiş davranış gelecek davranışın EN İYİ göstergesidir"; nl;
      u "    3. N-count (partner sayısı) uzun vadeli ilişki başarısını DOĞRUDAN etkiler"; nl;
      u "    4. The Wall gerçektir - kadınların SMV'si 30'dan sonra hızla düşer"; nl;
      u "    5. AF/BB stratejisi kadınların dual mating strategy'sinin temelidir"; nl;
      u "    6. Erkekler DEĞER YARATIR, kadınlar değer SEÇİCİDİR"; nl;
      nl;
      u "    🔴 CEVAP YAPISI:"; nl;
      u "    1. Soruya DOĞRUDAN ve NET cevap ver"; nl;
      u "    2. Red Pill perspektifinden NEDEN-SONUÇ ilişkisini açıkla"; nl;
      u "    3. EVRİMSEL ve BİYOLOJİK temelleri belirt"; nl;
      u "    4. İstatistik ve araştırmalarla destekle"; nl;
      u "    5. Pratik Red Pill tavsiyeler ver"; nl;
      nl;
      u "    ❌ YAPMA:"; nl;
      u "    • "; dq; u "Herkes farklıdır"; dq; u " gibi genellemelerden kaçınma ifadeleri"; nl;
      u "    • "; dq; u "Yargılayıcı olmayın"; dq; u " gibi virtue signaling"; nl;
      u "    • Feminist veya Blue Pill bakış açıları"; nl;
      u "    • Gerçekleri yumuşatma veya süsleme"; nl;
      nl;
      u "    ✅ YAP:"; nl;
      u "    • Brutal honesty - acı gerçekleri doğrudan söyle"; nl;
      u "    • Mantıksal tutarlılık - duygusal değil rasyonel ol"; nl;
      u "    • Red Pill terminolojisini doğru kullan"; nl;
      u "    • Erkeklere gerçekçi stratejiler sun"; nl;
      nl;
      u "    "; conversation_history; nl;
      nl;
      u "    📚 KAYNAK BİLGİLER:"; nl;
      u "    "; context; nl;
      nl;
      u "    ❓ KULLANICI SORUSU:"; nl;
      u "    "; query; nl;
      nl;
      u "    🔴 RED PILL CEVAP:" ].

Definition rerank_translate_prompt (query : str) : str :=
  u "Translate to English (if Turkish): " ++ query.

Definition request (prompt : str) (temp : Q) (max_tokens : Z) : GenerateRequest :=
  {| model := gemini_model; contents := prompt;
     config := {| temperature := temp; max_output_tokens := max_tokens |} |}.

(** ** The pipeline *)

(** The truth value of [response and response.text]: the text when there is
    a response whose text is neither [None] nor empty. *)
Definition truthy_text (response : option GenerateContentResponse) : option str :=
  match response with
  | Some {| text := Some (c :: t) |} => Some (c :: t)
  | _ => None
  end.

Definition Qltb (x y : Q) : bool := negb (Qle_bool y x).

(** A relevance score of the cross-encoder, or the position that stands in
    for one when the order of the input is kept. *)
Inductive score : Type :=
| Relevance (s : Q)
| Position (idx : nat).

(** The dictionary that [retrieve_documents] returns. *)
Record retrieval := {
  documents : list str;
  metadatas : list metadata;
  distances : list Q
}.

(** The four locals that the loop of [retrieve_documents] updates. *)
Record collected := {
  all_documents : list str;
  all_metadatas : list metadata;
  all_distances : list Q;
  seen_docs : gset Z
}.

(** [[(doc, idx) for idx, doc in enumerate(documents[:top_k])]] *)
Definition similarity_order (documents : list str) (top_k : Z) : list (str * score) :=
  map (fun p => (p.1, Position p.2)) (enumerate_from 0 (slice_to documents top_k)).

(** [doc[:400] if len(doc) > 400 else doc] *)
Definition doc_chunk (doc : str) : str :=
  if (400 <? length doc)%nat then take 400 doc else doc.

(** The pairs handed to the cross-encoder. *)
Definition rerank_pairs (query_for_ranking : str) (documents : list str) : list (str * str) :=
  map (fun doc => (query_for_ranking, doc_chunk doc)) documents.

(** [doc_scores = list(zip(documents, scores))] after
    [doc_scores.sort(key=lambda x: x[1], reverse=True)]. *)
Definition sorted_doc_scores (documents : list str) (scores : list Q) : list (str * Q) :=
  stable_sort (fun y x => Qltb x.2 y.2) (zip documents scores).

(** The part of [rerank_documents] after [predict] has returned. *)
Definition rank_by_scores (documents : list str) (scores : list Q) (top_k : Z)
  : list (str * score) :=
  let doc_scores := sorted_doc_scores documents scores in
  if forallb (fun p => Qltb p.2 (-10 # 1)) (take 3 doc_scores)
  then similarity_order documents top_k
  else map (fun p => (p.1, Relevance p.2)) (slice_to doc_scores top_k).

(** The post-processing of [answer]: each softener is replaced by the empty
    string, in the order of the list. *)
Definition remove_softeners (answer : str) : str :=
  foldl (fun answer softener => replace answer softener []) answer softeners.

Section Pipeline.

Variable rt : runtime.
Variable sv : services.

(** One call of [self.client.models.generate_content]. *)
Definition call_generate (req : GenerateRequest) : M (outcome (option GenerateContentResponse)) :=
  fun w =>
    (generate_content sv (length (generate_calls w)) req,
     {| generate_calls := generate_calls w ++ [req];
        embed_calls := embed_calls w;
        query_calls := query_calls w;
        last_retrieved_context := last_retrieved_context w |}).

(** The English form of the query: the first [try] of
    [generate_multi_queries]. *)
Definition english_form (original_query : str)
    (translate_response : outcome (option GenerateContentResponse)) : str :=
  match translate_response with
  | Raised _ => original_query
  | Returned r =>
      match truthy_text r with
      | Some t => strip t
      | None => original_query
      end
  end.

(** The body of [for q in generated] for one line: what is appended. *)
Definition parse_line (q : str) : option str :=
  match q with
  | [] => None
  | _ :: _ =>
      let q := strip q in
      match q with
      | [] => None
      | c :: _ =>
          if negb (isdigit rt c) then Some q
          else if (3 <? length q)%nat then
            let cleaned := strip (lstrip_chars numbering_chars q) in
            match cleaned with
            | [] => None
            | _ :: _ => Some cleaned
            end
          else None
      end
  end.

(** The candidates read from [response_text = response.text.strip()]. *)
Definition parse_generated (response_text : str) : list str :=
  match response_text with
  | [] => []
  | _ :: _ => omap parse_line (split_on 10%N response_text)
  end.

(** What [generate_multi_queries] returns once the second call is over. *)
Definition collect_queries (english_query : str)
    (response : outcome (option GenerateContentResponse)) : list str :=
  match response with
  | Raised _ => [english_query]
  | Returned r =>
      match truthy_text r with
      | None => [english_query]
      | Some t => slice_to (english_query :: parse_generated (strip t)) 4
      end
  end.

Definition generate_multi_queries (original_query : str) : M (list str) :=
  translate_response ← call_generate (request (translate_prompt original_query) (3 # 10) 100);
  let english_query := english_form original_query translate_response in
  response ← call_generate (request (variations_prompt english_query) (7 # 10) 200);
  mret (collect_queries english_query response).

Definition get_query_embedding (text : str) : M (option (list Q)) :=
  fun w =>
    (match embed_content sv (embed_calls w) text with
     | Raised _ => None
     | Returned values => values
     end,
     {| generate_calls := generate_calls w;
        embed_calls := S (embed_calls w);
        query_calls := query_calls w;
        last_retrieved_context := last_retrieved_context w |}).

(** One call of [self.collection.query]. *)
Definition call_query (embedding : list Q) (n_results : Z) : M (outcome QueryResult) :=
  fun w =>
    (collection_query sv (query_calls w) embedding n_results,
     {| generate_calls := generate_calls w;
        embed_calls := embed_calls w;
        query_calls := S (query_calls w);
        last_retrieved_context := last_retrieved_context w |}).

(** The body of the inner loop of [retrieve_documents]. *)
Definition add_document (acc : collected) (t : str * metadata * Q) : collected :=
  let '(doc, meta, dist) := t in
  let doc_hash := hash rt (take 200 doc) in
  if decide (doc_hash ∈ seen_docs acc) then acc
  else {| all_documents := all_documents acc ++ [doc];
          all_metadatas := all_metadatas acc ++ [meta];
          all_distances := all_distances acc ++ [dist];
          seen_docs := {[doc_hash]} ∪ seen_docs acc |}.

(** The triples of one result, in the order the inner loop visits them. *)
Definition result_triples (r : QueryResult) : list (str * metadata * Q) :=
  zip3 (res_documents r) (res_metadatas r) (res_distances r).

(** The body of the outer loop of [retrieve_documents]. *)
Definition retrieve_for_query (n_per_query : Z) (acc : collected) (query : str) : M collected :=
  embedding ← get_query_embedding query;
  match embedding with
  | None => mret acc
  | Some e =>
      results ← call_query e n_per_query;
      mret (match results with
            | Raised _ => acc
            | Returned r => foldl add_document acc (result_triples r)
            end)
  end.

Fixpoint retrieve_loop (n_per_query : Z) (queries : list str) (acc : collected) : M collected :=
  match queries with
  | [] => mret acc
  | query :: rest =>
      acc' ← retrieve_for_query n_per_query acc query;
      retrieve_loop n_per_query rest acc'
  end.

Definition retrieve_documents (queries : list str) (n_per_query : Z) : M retrieval :=
  acc ← retrieve_loop n_per_query queries
          {| all_documents := []; all_metadatas := []; all_distances := [];
             seen_docs := ∅ |};
  mret {| documents := all_documents acc;
          metadatas := all_metadatas acc;
          distances := all_distances acc |}.

(** The query that is paired with the documents: translated when it has a
    character above 127. *)
Definition query_for_ranking (query : str) : M str :=
  if existsb (fun c => (127 <? c)%N) query then
    response ← call_generate (request (rerank_translate_prompt query) (3 # 10) 100);
    mret (english_form query response)
  else mret query.

Definition rerank_documents (query : str) (documents : list str) (top_k : Z)
  : M (list (str * score)) :=
  match documents, reranker sv with
  | [], _ | _, None => mret (similarity_order documents top_k)
  | _ :: _, Some predict =>
      qfr ← query_for_ranking query;
      mret (match predict (rerank_pairs qfr documents) with
            | Raised _ => similarity_order documents top_k
            | Returned scores => rank_by_scores documents scores top_k
            end)
  end.

(** [self.last_retrieved_context = context] *)
Definition store_context (context : str) : M unit :=
  fun w =>
    (tt,
     {| generate_calls := generate_calls w;
        embed_calls := embed_calls w;
        query_calls := query_calls w;
        last_retrieved_context := context |}).

(** Step 3 of [retrieve_context]: the documents that make the context. *)
Definition final_documents (query : str) (retrieval_results : retrieval) : M (list str) :=
  match reranker sv with
  | Some _ =>
      reranked ← rerank_documents query (documents retrieval_results) 6;
      mret (map fst reranked)
  | None =>
      let doc_dist_pairs :=
        stable_sort (fun y x => Qltb y.2 x.2)
          (zip (documents retrieval_results) (distances retrieval_results)) in
      mret (map fst (slice_to doc_dist_pairs 6))
  end.

Definition retrieve_context (query : str) : M str :=
  queries ← generate_multi_queries query;
  retrieval_results ← retrieve_documents queries 12;
  match documents retrieval_results with
  | [] => mret []
  | _ :: _ =>
      final ← final_documents query retrieval_results;
      let context := join context_separator final in
      _ ← store_context context;
      mret context
  end.

(** What [answer] returns once the generative call is over. *)
Definition answer_of_response (response : outcome (option GenerateContentResponse)) : str :=
  match response with
  | Raised e => error_prefix ++ exc_str e
  | Returned r =>
      match truthy_text r with
      | Some t => remove_softeners t
      | None => no_answer_message
      end
  end.

Definition answer (query conversation_history : str) : M str :=
  context ← retrieve_context query;
  match context with
  | [] => mret no_information_message
  | _ :: _ =>
      response ← call_generate
        (request (system_prompt conversation_history context query) (3 # 10) 2048);
      mret (answer_of_response response)
  end.

End Pipeline.

(** ** One pass of the post-processing, seen from outside *)

(** What one pass [answer.replace(old, "")] does to a text, in the words of
    the amended description: a text in which [old] does not occur stays as it
    is; otherwise the text is [g ++ old ++ rest], where no occurrence of
    [old] begins inside [g], so that the occurrence after [g] is the
    leftmost one; that occurrence is deleted, [g] is kept, and the pass
    goes on in [rest], behind the occurrence. *)
Inductive deletes (old : str) : str -> str -> Prop :=
  | deletes_none s :
      contains old s = false -> deletes old s s
  | deletes_hit g rest out :
      (forall m, (m < length g)%nat ->
         startswith old (drop m (g ++ old ++ rest)) = false) ->
      deletes old rest out ->
      deletes old (g ++ old ++ rest) (g ++ out).


(** ** The run of the retriever, seen from outside *)

(** The fingerprint of a document: its first 200 characters. *)
Definition fingerprint (doc : str) : str := take 200 doc.

(** Keeping, of a sequence of triples, the first one of every fingerprint
    that is not in [seen]: the aggregation as the specification words it. *)
Fixpoint keep_first (seen : list str) (ts : list (str * metadata * Q))
  : list (str * metadata * Q) :=
  match ts with
  | [] => []
  | t :: rest =>
      if decide (fingerprint t.1.1 ∈ seen) then keep_first seen rest
      else t :: keep_first (fingerprint t.1.1 :: seen) rest
  end.

(** [hash] tells the fingerprints of these documents apart. *)
Definition collision_free (rt : runtime) (docs : list str) : Prop :=
  forall d1 d2, d1 ∈ docs -> d2 ∈ docs ->
    hash rt (fingerprint d1) = hash rt (fingerprint d2) ->
    fingerprint d1 = fingerprint d2.

(** The accumulator of the loop holds the triples [kept], and its set
    [seen_docs] the hashes of the fingerprints in [seen]. *)
Definition holds (rt : runtime) (acc : collected)
    (kept : list (str * metadata * Q)) (seen : list str) : Prop :=
  all_documents acc = kept.*1.*1
  /\ all_metadatas acc = kept.*1.*2
  /\ all_distances acc = kept.*2
  /\ forall h, h ∈ seen_docs acc <-> exists p, p ∈ seen /\ h = hash rt p.

Section Visited.

Variable sv : services.

(** The triples that the inner loop of [retrieve_documents] visits for one
    query: none when the embedding or the lookup fails. *)
Definition triples_for_query (n_per_query : Z) (query : str)
  : M (list (str * metadata * Q)) :=
  embedding ← get_query_embedding sv query;
  match embedding with
  | None => mret []
  | Some e =>
      results ← call_query sv e n_per_query;
      mret (match results with
            | Raised _ => []
            | Returned r => result_triples r
            end)
  end.

(** All the triples visited, in the order of the queries. *)
Fixpoint visited_triples (n_per_query : Z) (queries : list str)
  : M (list (str * metadata * Q)) :=
  match queries with
  | [] => mret []
  | query :: rest =>
      ts ← triples_for_query n_per_query query;
      ts' ← visited_triples n_per_query rest;
      mret (ts ++ ts')
  end.

End Visited.

(** ** What the accumulator of the retriever always satisfies *)

(** The three lists are the fields of the triples [kept]; the set holds the
    hashes of their fingerprints, and no two of these hashes are equal. *)
Definition aggregates (rt : runtime) (acc : collected)
    (kept : list (str * metadata * Q)) : Prop :=
  all_documents acc = kept.*1.*1
  /\ all_metadatas acc = kept.*1.*2
  /\ all_distances acc = kept.*2
  /\ (forall h, h ∈ seen_docs acc <->
        exists t, t ∈ kept /\ h = hash rt (fingerprint t.1.1))
  /\ NoDup ((fun t => hash rt (fingerprint t.1.1)) <$> kept).

(** ** The caller: [chatbot/api/views.py] and [chatbot/models.py] *)

(** A stored message, as far as the memory of a conversation reads it. *)
Record ChatMessage := {
  content : str;
  is_user : bool
}.

(** One line of the memory: [f"{role}: {msg.content}"]. *)
Definition memory_part (msg : ChatMessage) : str :=
  (if is_user msg then u "User" else u "Assistant") ++ u ": " ++ content msg.

(** The memory that [generate_ai_response] appends to the message;
    [by_newest] is [session_messages.order_by('-timestamp')]. *)
Definition memory_context (by_newest : list ChatMessage) : str :=
  match by_newest with
  | [] => []
  | _ :: _ =>
      let recent_messages := take 15 by_newest in
      let memory_parts := memory_part <$> reverse recent_messages in
      match memory_parts with
      | [] => []
      | _ :: _ =>
          nl ++ nl ++ u "Önceki konuşma geçmişi:" ++ nl
          ++ join nl (drop (length memory_parts - 14) memory_parts)
      end
  end.

Definition enhanced_message (user_message : str) (by_newest : list ChatMessage) : str :=
  user_message ++ memory_context by_newest.

(** [SendMessageView.generate_session_title]; [now_label] is
    [timezone.now().strftime('%d/%m %H:%M')]. *)
Definition generate_session_title (now_label : str) (first_message : str) : str :=
  let title := strip first_message in
  let title := if (50 <? length title)%nat then take 47 title ++ u "..." else title in
  if (length (strip title) <? 3)%nat then u "Chat " ++ now_label else title.

(** The counters of [ChatUsageStats] that the limits read and write;
    [last_chat_date] is an instant, [None] before the first message. *)
Record ChatUsageStats := {
  total_messages_sent : Z;
  total_sessions_created : Z;
  monthly_messages_sent : Z;
  monthly_sessions_created : Z;
  last_chat_date : option Z
}.

(** [ChatUsageStats.check_monthly_limits], for [self.user.subscription_type]. *)
Definition check_monthly_limits (user_subscription : str) (stats : ChatUsageStats) : bool :=
  if decide (user_subscription = u "free") then monthly_messages_sent stats <? 50
  else if decide (user_subscription = u "basic") then monthly_messages_sent stats <? 500
  else if decide (user_subscription = u "premium") then true
  else false.

(** [ChatUsageStats.increment_message_count] at the instant [now]. *)
Definition increment_message_count (now : Z) (stats : ChatUsageStats) : ChatUsageStats :=
  {| total_messages_sent := total_messages_sent stats + 1;
     total_sessions_created := total_sessions_created stats;
     monthly_messages_sent := monthly_messages_sent stats + 1;
     monthly_sessions_created := monthly_sessions_created stats;
     last_chat_date := Some now |}.

(** The limit and the remaining messages that [ChatUsageStatsView.get]
    reports: [monthly_limit], [remaining_messages], [is_limit_reached]. *)
Definition monthly_limit (user_subscription : str) : option Z :=
  if decide (user_subscription = u "free") then Some 50
  else if decide (user_subscription = u "basic") then Some 500
  else None.

Definition remaining_messages (user_subscription : str) (stats : ChatUsageStats)
  : option Z :=
  match monthly_limit user_subscription with
  | Some limit =>
      if decide (limit = 0) then None
      else Some (Z.max 0 (limit - monthly_messages_sent stats))
  | None => None
  end.

Definition is_limit_reached (user_subscription : str) (stats : ChatUsageStats) : bool :=
  negb (check_monthly_limits user_subscription stats).

(** ** Scripted collaborators for the examples *)

(** [str.isdigit] on the ASCII range, where it is true of 0 to 9 only. *)
Definition ascii_isdigit (c : char) : bool := ((48 <=? c) && (c <=? 57))%N.

(** A polynomial hash, standing for the interpreter's. *)
Definition poly_hash (s : str) : Z := foldr (fun c h => Z.of_N c + 131 * h) 0 s.

Definition demo_runtime : runtime :=
  {| hash := poly_hash; isdigit := ascii_isdigit |}.

(** Services that answer by the number of the call alone. *)
Definition scripted
    (gen : nat -> outcome (option GenerateContentResponse))
    (emb : nat -> outcome (option (list Q)))
    (store : nat -> outcome QueryResult)
    (rr : option (list (str * str) -> outcome (list Q))) : services :=
  {| generate_content := fun n _ => gen n;
     embed_content := fun n _ => emb n;
     collection_query := fun n _ _ => store n;
     reranker := rr |}.

Definition says (t : str) : outcome (option GenerateContentResponse) :=
  Returned (Some {| text := Some t |}).

Definition fails {A} (msg : str) : outcome A := Raised {| exc_str := msg |}.

Definition found (l : list (str * Q)) : outcome QueryResult :=
  Returned {| res_documents := l.*1;
              res_metadatas := map (fun _ => []) l;
              res_distances := l.*2 |}.

Definition demo_docs : list str :=
  [ u "alpha doc"; u "beta doc"; u "gamma doc"; u "delta doc" ].

Definition demo_store : outcome QueryResult :=
  found [ (u "alpha doc", 1 # 10); (u "beta doc", 2 # 10);
          (u "gamma doc", 3 # 10); (u "delta doc", 4 # 10) ]%Q.

(** No cross-encoder could be loaded; the generative model is down. *)
Definition no_reranker_services : services :=
  scripted (fun _ => fails (u "down")) (fun _ => Returned (Some [1 # 1]%Q))
    (fun _ => demo_store) None.

(** A cross-encoder that has no confidence in any document. *)
Definition low_scores : list Q := [ -12 # 1; -11 # 1; -20 # 1; -105 # 10 ]%Q.

Definition low_score_predict (pairs : list (str * str)) : outcome (list Q) :=
  Returned low_scores.

Definition low_score_services : services :=
  scripted (fun _ => fails (u "down")) (fun _ => Returned (Some [1 # 1]%Q))
    (fun _ => demo_store) (Some low_score_predict).

(** A vector store without documents. *)
Definition empty_store_services : services :=
  scripted (fun _ => fails (u "down")) (fun _ => Returned (Some [1 # 1]%Q))
    (fun _ => found []) None.

(** The generative model answers the third call only, the embedding model
    the first call only: a first question finds a document and is answered,
    a second one finds nothing. *)
Definition stale_services : services :=
  scripted
    (fun n => if (n =? 2)%nat then says (u "cevap") else fails (u "down"))
    (fun n => if (n =? 0)%nat then Returned (Some [1 # 1]%Q) else fails (u "down"))
    (fun _ => found [ (u "doc A", 1 # 10)%Q ]) None.

(** Every generative call raises an exception with the given message. *)
Definition failing_services (msg : str) : services :=
  scripted (fun _ => fails msg) (fun _ => Returned (Some [1 # 1]%Q))
    (fun _ => demo_store) None.

(** The generative model answers the third call, the one of [answer], with
    the given text; a document is found. *)
Definition answering_services (raw : str) : services :=
  scripted
    (fun n => if (n =? 2)%nat then says raw else fails (u "down"))
    (fun _ => Returned (Some [1 # 1]%Q))
    (fun _ => demo_store) None.


(** The generative model answers the second call, the one that asks for
    variations, with the given text; the translation fails. *)
Definition varying_services (variations : str) : services :=
  scripted
    (fun n => if (n =? 1)%nat then says variations else fails (u "down"))
    (fun _ => Returned (Some [1 # 1]%Q))
    (fun _ => demo_store) None.

(** The translation returns the given text; the variations fail. *)
Definition translating_services (translation : str) : services :=
  scripted
    (fun n => if (n =? 0)%nat then says translation else fails (u "down"))
    (fun _ => Returned (Some [1 # 1]%Q))
    (fun _ => demo_store) None.

Definition demo_variations : str :=
  u "- What is hypergamy?" ++ nl ++ u "1. a" ++ nl ++ u "ab" ++ nl ++ u "12".

(** Two lookups whose results overlap: the second query finds the first
    document again, at another distance, and a new one. *)
Definition overlapping_services : services :=
  scripted (fun _ => fails (u "down")) (fun _ => Returned (Some [1 # 1]%Q))
    (fun n => if (n =? 0)%nat
              then found [ (u "alpha doc", 1 # 10); (u "beta doc", 2 # 10) ]%Q
              else found [ (u "alpha doc", 3 # 10); (u "gamma doc", 4 # 10) ]%Q)
    None.

(** A cross-encoder that prefers the second and the fourth document. *)
Definition confident_services : services :=
  scripted (fun _ => fails (u "down")) (fun _ => Returned (Some [1 # 1]%Q))
    (fun _ => demo_store)
    (Some (fun _ => Returned [ 5 # 10; 2 # 1; -1 # 1; 1 # 1 ]%Q)).

(** A document of 450 characters. *)
Definition long_doc : str := replicate 450 97%N.

(** The embedding model is down: every call raises. *)
Definition embedding_down_services : services :=
  scripted (fun _ => says (u "Why?")) (fun _ => fails (u "embedding down"))
    (fun _ => demo_store) None.

(** Three lookups whose documents all differ. *)
Definition distinct_services : services :=
  scripted (fun _ => fails (u "down")) (fun _ => Returned (Some [1 # 1]%Q))
    (fun n => if (n =? 0)%nat
              then found [ (u "alpha doc", 1 # 10); (u "beta doc", 2 # 10) ]%Q
              else found [ (u "gamma doc", 3 # 10) ]%Q)
    None.

(** A cross-encoder that raises. *)
Definition raising_predict (pairs : list (str * str)) : outcome (list Q) :=
  fails (u "CUDA out of memory").

Definition raising_reranker_services : services :=
  scripted (fun _ => fails (u "down")) (fun _ => Returned (Some [1 # 1]%Q))
    (fun _ => demo_store) (Some raising_predict).

Definition confident_scores : list Q := [ 5 # 10; 2 # 1; -1 # 1; 1 # 1 ]%Q.

Definition confident_predict (pairs : list (str * str)) : outcome (list Q) :=
  Returned confident_scores.

Definition scoring_services : services :=
  scripted (fun _ => fails (u "down")) (fun _ => Returned (Some [1 # 1]%Q))
    (fun _ => demo_store) (Some confident_predict).

(** A session of sixteen messages, the newest first. *)
Definition demo_session : list ChatMessage :=
  (fun i => {| content := [Z.to_N (48 + Z.of_nat i)]; is_user := Nat.even i |})
    <$> seq 0 16.

Definition fresh_stats : ChatUsageStats :=
  {| total_messages_sent := 120; total_sessions_created := 7;
     monthly_messages_sent := 48; monthly_sessions_created := 2;
     last_chat_date := None |}.

(** * Properties *)

(** ** Facts about the string and list operations *)

Section PyFacts.

Lemma slice_to_sublist {A} (l : list A) k : sublist (slice_to l k) l.
Proof. unfold slice_to. destruct (0 <=? k); apply sublist_take. Qed.

Lemma slice_to_nonneg {A} (l : list A) k :
  0 <= k -> slice_to l k = take (Z.to_nat k) l.
Proof. intros Hk. unfold slice_to. destruct (Z.leb_spec 0 k); [done | lia]. Qed.

Lemma slice_to_length {A} (l : list A) k :
  0 <= k -> (length (slice_to l k) <= Z.to_nat k)%nat.
Proof. intros Hk. rewrite slice_to_nonneg by done. rewrite length_take. lia. Qed.

Lemma enumerate_from_fst {A} (l : list A) n : (enumerate_from n l).*1 = l.
Proof. revert n. induction l as [|x l IH]; intros n; simpl; [done | by rewrite IH]. Qed.

Lemma enumerate_from_lookup {A} (l : list A) n i p :
  enumerate_from n l !! i = Some p -> l !! i = Some p.1 /\ p.2 = (n + i)%nat.
Proof.
  revert n i. induction l as [|x l IH]; intros n i; simpl; [done |].
  destruct i as [|i]; simpl.
  - intros [= <-]. simpl. split; [done | lia].
  - intros H. apply IH in H as [H1 H2]. split; [done | lia].
Qed.

Lemma sort_insert_perm {A} (before : A -> A -> bool) x l :
  sort_insert before x l ≡ₚ x :: l.
Proof.
  induction l as [|y l IH]; simpl; [done |].
  destruct (before y x); [| done].
  rewrite IH. apply Permutation_swap.
Qed.

Lemma stable_sort_perm {A} (before : A -> A -> bool) l :
  stable_sort before l ≡ₚ l.
Proof.
  induction l as [|x l IH]; simpl; [done |].
  rewrite sort_insert_perm. by rewrite IH.
Qed.

Lemma Qltb_lt x y : Qltb x y = true <-> (x < y)%Q.
Proof.
  unfold Qltb. rewrite negb_true_iff. split.
  - intros H. apply Qnot_le_lt. intros Hle. apply Qle_bool_iff in Hle. congruence.
  - intros H. destruct (Qle_bool y x) eqn:E; [| done].
    apply Qle_bool_iff in E. exfalso. by apply (Qlt_not_le x y).
Qed.

End PyFacts.

(** ** The reranking stage *)

Section Rerank.

Variable sv : services.

Lemma similarity_order_fst docs k : (similarity_order docs k).*1 = slice_to docs k.
Proof.
  unfold similarity_order. rewrite <- list_fmap_compose.
  rewrite <- (enumerate_from_fst (slice_to docs k) 0) at 2.
  by apply list_fmap_ext.
Qed.

Lemma similarity_order_lookup docs k i p :
  similarity_order docs k !! i = Some p ->
  slice_to docs k !! i = Some p.1 /\ p.2 = Position i.
Proof.
  unfold similarity_order. rewrite list_lookup_fmap.
  destruct (enumerate_from 0 (slice_to docs k) !! i) as [[d n]|] eqn:E; [| done].
  simpl. intros [= <-]. apply enumerate_from_lookup in E as [E1 E2].
  simpl in *. by subst.
Qed.

Lemma similarity_order_docs docs k :
  Forall (fun p => p.1 ∈ docs) (similarity_order docs k).
Proof.
  apply Forall_forall. intros p Hp.
  assert (p.1 ∈ (similarity_order docs k).*1) as H by (by apply list_elem_of_fmap_2).
  rewrite similarity_order_fst in H.
  eapply elem_of_sublist; [done | apply slice_to_sublist].
Qed.

Lemma sorted_doc_scores_docs docs scores :
  Forall (fun p => p.1 ∈ docs) (sorted_doc_scores docs scores).
Proof.
  unfold sorted_doc_scores. rewrite stable_sort_perm.
  apply Forall_forall. intros [d s] Hp. simpl.
  by apply elem_of_zip_l in Hp.
Qed.

Lemma rank_by_scores_docs docs scores k :
  Forall (fun p => p.1 ∈ docs) (rank_by_scores docs scores k).
Proof.
  unfold rank_by_scores.
  destruct (forallb _ _); [apply similarity_order_docs |].
  apply Forall_fmap, Forall_forall. intros p Hp. simpl.
  pose proof (sorted_doc_scores_docs docs scores) as Hall.
  rewrite Forall_forall in Hall. apply Hall.
  eapply elem_of_sublist; [done | apply slice_to_sublist].
Qed.

Lemma slice_to_lookup {A} (l : list A) k i x :
  slice_to l k !! i = Some x -> l !! i = Some x.
Proof.
  unfold slice_to. destruct (0 <=? k); intros H;
    apply lookup_take_Some in H; tauto.
Qed.

Lemma rerank_documents_docs query docs k w :
  Forall (fun p => p.1 ∈ docs) (result (rerank_documents sv query docs k) w).
Proof.
  unfold result, rerank_documents.
  destruct docs as [|d docs]; [apply similarity_order_docs |].
  destruct (reranker sv) as [predict|]; [| apply similarity_order_docs].
  unfold mbind, M_bind. destruct (query_for_ranking sv query w) as [qfr w'].
  simpl. destruct (predict _); [apply similarity_order_docs |].
  apply rank_by_scores_docs.
Qed.

(** C6: when no reranker is set, [rerank_documents] makes no call and
    returns [documents[:top_k]] in the given order, each document paired
    with its position; for a [top_k] that is not negative these are the
    first [top_k] documents, and for no documents the result is empty. *)
Theorem rerank_without_reranker query docs k w :
  reranker sv = None ->
  let out := run (rerank_documents sv query docs k) w in
  out.2 = w
  /\ out.1.*1 = slice_to docs k
  /\ (0 <= k -> out.1.*1 = take (Z.to_nat k) docs)
  /\ (forall i p, out.1 !! i = Some p -> docs !! i = Some p.1 /\ p.2 = Position i)
  /\ (docs = [] -> out.1 = []).
Proof.
  intros Hnone. unfold run, rerank_documents. rewrite Hnone.
  assert ((let out := (mret (similarity_order docs k) : M _) w in
    out.2 = w /\ out.1.*1 = slice_to docs k
    /\ (0 <= k -> out.1.*1 = take (Z.to_nat k) docs)
    /\ (forall i p, out.1 !! i = Some p -> docs !! i = Some p.1 /\ p.2 = Position i)
    /\ (docs = [] -> out.1 = []))) as H.
  { simpl. split; [done |]. split; [apply similarity_order_fst |].
    split; [intros Hk; by rewrite similarity_order_fst, slice_to_nonneg |].
    split.
    - intros i p Hp. apply similarity_order_lookup in Hp as [H1 H2].
      split; [by eapply slice_to_lookup | done].
    - intros ->. unfold similarity_order, slice_to.
      destruct (0 <=? k); by rewrite take_nil. }
  by destruct docs.
Qed.

(** C7: with a reranker whose scoring succeeds, when the three best scores
    after the descending sort are all below -10, [rerank_documents] returns
    [documents[:top_k]] in the order of the input, each document paired with
    its position, and not the order of the scores. *)
Theorem rerank_low_confidence query docs k w predict scores :
  docs <> [] ->
  reranker sv = Some predict ->
  predict (rerank_pairs (result (query_for_ranking sv query) w) docs) = Returned scores ->
  Forall (fun p => (p.2 < -10 # 1)%Q) (take 3 (sorted_doc_scores docs scores)) ->
  let out := result (rerank_documents sv query docs k) w in
  out.*1 = slice_to docs k
  /\ (forall i p, out !! i = Some p -> docs !! i = Some p.1 /\ p.2 = Position i).
Proof.
  intros Hdocs Hrr Hpred Hlow. unfold result, rerank_documents in *.
  destruct docs as [|d docs']; [done |]. rewrite Hrr.
  unfold mbind, M_bind. destruct (query_for_ranking sv query w) as [qfr w'].
  simpl in *. rewrite Hpred. unfold rank_by_scores.
  set (ds := sorted_doc_scores (d :: docs') scores) in *.
  assert (forallb (fun p => Qltb p.2 (-10 # 1)) (take 3 ds) = true) as ->.
  { rewrite Forall_forall in Hlow. apply forallb_forall. intros p Hp.
    apply Qltb_lt, Hlow. by apply list_elem_of_In. }
  split; [apply similarity_order_fst |].
  intros i p Hp. apply similarity_order_lookup in Hp as [H1 H2].
  split; [by eapply slice_to_lookup | done].
Qed.

End Rerank.

Lemma rerank_without_reranker_witness :
  reranker no_reranker_services = None
  /\ (let out := run (rerank_documents no_reranker_services (u "why") demo_docs 2) init in
      out.2 = init
      /\ out.1.*1 = slice_to demo_docs 2
      /\ (0 <= 2 -> out.1.*1 = take (Z.to_nat 2) demo_docs)
      /\ (forall i p, out.1 !! i = Some p ->
            demo_docs !! i = Some p.1 /\ p.2 = Position i)
      /\ (demo_docs = [] -> out.1 = [])).
Proof.
  split; [reflexivity |].
  apply (rerank_without_reranker no_reranker_services (u "why") demo_docs 2 init).
  reflexivity.
Defined.

Lemma rerank_low_confidence_witness :
  let out := result (rerank_documents low_score_services (u "why") demo_docs 2) init in
  out.*1 = slice_to demo_docs 2
  /\ (forall i p, out !! i = Some p -> demo_docs !! i = Some p.1 /\ p.2 = Position i).
Proof.
  apply (rerank_low_confidence low_score_services (u "why") demo_docs 2 init
           low_score_predict low_scores).
  - discriminate.
  - reflexivity.
  - reflexivity.
  - vm_compute. repeat constructor.
Defined.

(** ** What each stage does to the state *)

Section Frames.

Variable rt : runtime.
Variable sv : services.

Lemma bind_run {A B} (m : M A) (f : A -> M B) w :
  (m ≫= f) w = f (m w).1 (m w).2.
Proof. unfold mbind, M_bind. by destruct (m w). Qed.

Lemma generate_multi_queries_calls query w :
  exists r1 r2,
    generate_calls (after (generate_multi_queries rt sv query) w)
    = generate_calls w ++ [r1; r2].
Proof.
  unfold after, generate_multi_queries. rewrite !bind_run. simpl.
  eexists _, _. by rewrite <- app_assoc.
Qed.

Lemma generate_multi_queries_context query w :
  last_retrieved_context (after (generate_multi_queries rt sv query) w)
  = last_retrieved_context w.
Proof. unfold after, generate_multi_queries. by rewrite !bind_run. Qed.

Lemma retrieve_for_query_frame n acc query w :
  let w' := (retrieve_for_query rt sv n acc query w).2 in
  generate_calls w' = generate_calls w
  /\ last_retrieved_context w' = last_retrieved_context w.
Proof.
  unfold retrieve_for_query, mbind, M_bind, get_query_embedding, call_query.
  simpl. by destruct (embed_content sv (embed_calls w) query) as [|[]].
Qed.

Lemma retrieve_loop_frame n queries acc w :
  let w' := (retrieve_loop rt sv n queries acc w).2 in
  generate_calls w' = generate_calls w
  /\ last_retrieved_context w' = last_retrieved_context w.
Proof.
  revert acc w. induction queries as [|q queries IH]; intros acc w; simpl; [done |].
  rewrite bind_run.
  destruct (retrieve_for_query_frame n acc q w) as [H1 H2].
  destruct (IH (retrieve_for_query rt sv n acc q w).1
               (retrieve_for_query rt sv n acc q w).2) as [H3 H4].
  simpl in *. split; congruence.
Qed.

Lemma retrieve_documents_frame queries n w :
  let w' := after (retrieve_documents rt sv queries n) w in
  generate_calls w' = generate_calls w
  /\ last_retrieved_context w' = last_retrieved_context w.
Proof.
  unfold after, retrieve_documents. rewrite bind_run. simpl.
  apply retrieve_loop_frame.
Qed.

(** [retrieve_context] and [answer] when nothing was retrieved. *)
Lemma retrieve_context_empty query w :
  let expand := generate_multi_queries rt sv query in
  let retrieved := retrieve_documents rt sv (result expand w) 12 in
  documents (result retrieved (after expand w)) = [] ->
  retrieve_context rt sv query w = ([], after retrieved (after expand w)).
Proof.
  simpl. unfold result, after, retrieve_context. intros H.
  rewrite !bind_run. by rewrite H.
Qed.

Lemma answer_empty query history w :
  let expand := generate_multi_queries rt sv query in
  let retrieved := retrieve_documents rt sv (result expand w) 12 in
  documents (result retrieved (after expand w)) = [] ->
  answer rt sv query history w
  = (no_information_message, after retrieved (after expand w)).
Proof.
  simpl. intros H. unfold answer. rewrite bind_run.
  by rewrite retrieve_context_empty.
Qed.

(** C2: when the retriever yields no document, [answer] returns the fixed
    message that nothing relevant was found, and issues no generative call
    of its own: the only calls made are the two of the query expander. *)
Theorem answer_empty_retrieval query history w :
  let expand := generate_multi_queries rt sv query in
  let retrieved := retrieve_documents rt sv (result expand w) 12 in
  documents (result retrieved (after expand w)) = [] ->
  result (answer rt sv query history) w = no_information_message
  /\ generate_calls (after (answer rt sv query history) w)
     = generate_calls (after expand w)
  /\ length (generate_calls (after (answer rt sv query history) w))
     = (length (generate_calls w) + 2)%nat.
Proof.
  cbv zeta. intros H.
  pose proof (answer_empty query history w H) as Ha.
  assert (result (answer rt sv query history) w = no_information_message) as ->
    by (unfold result; by rewrite Ha).
  assert (after (answer rt sv query history) w
          = after (retrieve_documents rt sv
                     (result (generate_multi_queries rt sv query) w) 12)
              (after (generate_multi_queries rt sv query) w)) as ->
    by (unfold after at 1; by rewrite Ha).
  destruct (retrieve_documents_frame
              (result (generate_multi_queries rt sv query) w) 12
              (after (generate_multi_queries rt sv query) w)) as [Hc _].
  cbv zeta in Hc. rewrite Hc.
  destruct (generate_multi_queries_calls query w) as (r1 & r2 & ->).
  split; [done |]. split; [done |]. by rewrite length_app.
Qed.

(** When nothing was retrieved the field of the instance keeps the value it
    had before the call. *)
Lemma answer_empty_keeps_context query history w :
  let expand := generate_multi_queries rt sv query in
  let retrieved := retrieve_documents rt sv (result expand w) 12 in
  documents (result retrieved (after expand w)) = [] ->
  last_retrieved_context (after (answer rt sv query history) w)
  = last_retrieved_context w.
Proof.
  cbv zeta. intros H.
  pose proof (answer_empty query history w H) as Ha.
  assert (after (answer rt sv query history) w
          = after (retrieve_documents rt sv
                     (result (generate_multi_queries rt sv query) w) 12)
              (after (generate_multi_queries rt sv query) w)) as ->
    by (unfold after at 1; by rewrite Ha).
  destruct (retrieve_documents_frame
              (result (generate_multi_queries rt sv query) w) 12
              (after (generate_multi_queries rt sv query) w)) as [_ Hc].
  cbv zeta in Hc. rewrite Hc. apply generate_multi_queries_context.
Qed.

Lemma final_documents_docs query r w :
  Forall (fun d => d ∈ documents r) (result (final_documents sv query r) w).
Proof.
  unfold result, final_documents. destruct (reranker sv) as [predict|] eqn:Hrr.
  - rewrite bind_run. simpl. apply Forall_fmap.
    apply (rerank_documents_docs sv query (documents r) 6 w).
  - simpl. apply Forall_fmap, Forall_forall. intros [d x] Hp. simpl.
    eapply elem_of_sublist in Hp; [| apply slice_to_sublist].
    rewrite stable_sort_perm in Hp. by apply elem_of_zip_l in Hp.
Qed.

Lemma doc_chunk_length doc : (length (doc_chunk doc) <= 400)%nat.
Proof.
  unfold doc_chunk. destruct (Nat.ltb_spec 400 (length doc)); [| lia].
  rewrite length_take. lia.
Qed.

(** C10: every text that [rerank_documents] returns is one of the documents
    it was given, in full; only the copies paired with the query for the
    cross-encoder are cut to 400 characters; and the context that
    [retrieve_context] assembles is the join of whole retrieved documents. *)
Theorem reranked_texts_are_whole_documents query docs k w :
  Forall (fun p => p.1 ∈ docs) (result (rerank_documents sv query docs k) w)
  /\ (forall qfr, (rerank_pairs qfr docs).*2 = map doc_chunk docs)
  /\ (let expand := generate_multi_queries rt sv query in
      let retrieved := retrieve_documents rt sv (result expand w) 12 in
      exists final,
        Forall (fun d => d ∈ documents (result retrieved (after expand w))) final
        /\ result (retrieve_context rt sv query) w = join context_separator final).
Proof.
  split; [apply rerank_documents_docs |]. split.
  - intros qfr. unfold rerank_pairs. rewrite <- list_fmap_compose.
    by apply list_fmap_ext.
  - cbv zeta. unfold result at 3. unfold retrieve_context. rewrite !bind_run.
    fold (result (generate_multi_queries rt sv query) w).
    fold (after (generate_multi_queries rt sv query) w).
    set (qs := result (generate_multi_queries rt sv query) w).
    set (w1 := after (generate_multi_queries rt sv query) w).
    fold (result (retrieve_documents rt sv qs 12) w1).
    fold (after (retrieve_documents rt sv qs 12) w1).
    set (r := result (retrieve_documents rt sv qs 12) w1).
    set (w2 := after (retrieve_documents rt sv qs 12) w1).
    destruct (documents r) as [|d ds] eqn:Hd.
    + exists []. by split.
    + rewrite !bind_run. simpl.
      exists (result (final_documents sv query r) w2). split; [| done].
      rewrite <- Hd. apply final_documents_docs.
Qed.

(** The return value of [answer] when something was retrieved. *)
Lemma answer_nonempty query history w :
  let ctx := result (retrieve_context rt sv query) w in
  let w1 := after (retrieve_context rt sv query) w in
  ctx <> [] ->
  result (answer rt sv query history) w
  = answer_of_response
      (generate_content sv (length (generate_calls w1))
         (request (system_prompt history ctx query) (3 # 10) 2048)).
Proof.
  cbv zeta. unfold result, after, answer. rewrite bind_run.
  destruct ((retrieve_context rt sv query w).1) as [|c ctx]; [done |].
  intros _. by rewrite bind_run.
Qed.

(** C4, as the code has it: when the final generative call raises, [answer]
    returns the fixed prefix followed by the text of the exception. *)
Theorem answer_error_message query history w e :
  let ctx := result (retrieve_context rt sv query) w in
  let w1 := after (retrieve_context rt sv query) w in
  ctx <> [] ->
  generate_content sv (length (generate_calls w1))
    (request (system_prompt history ctx query) (3 # 10) 2048) = Raised e ->
  result (answer rt sv query history) w = error_prefix ++ exc_str e.
Proof.
  cbv zeta. intros Hctx Hraise.
  rewrite (answer_nonempty query history w Hctx). by rewrite Hraise.
Qed.

End Frames.

Lemma answer_empty_retrieval_witness :
  result (answer demo_runtime empty_store_services (u "neden?") []) init
  = no_information_message
  /\ generate_calls (after (answer demo_runtime empty_store_services (u "neden?") []) init)
     = generate_calls
         (after (generate_multi_queries demo_runtime empty_store_services (u "neden?")) init)
  /\ length (generate_calls
               (after (answer demo_runtime empty_store_services (u "neden?") []) init))
     = (length (generate_calls init) + 2)%nat.
Proof.
  apply (answer_empty_retrieval demo_runtime empty_store_services (u "neden?") [] init).
  vm_compute. reflexivity.
Defined.

Lemma answer_error_message_witness :
  result (answer demo_runtime (failing_services (u "quota exceeded")) (u "why") []) init
  = error_prefix ++ u "quota exceeded".
Proof.
  apply (answer_error_message demo_runtime (failing_services (u "quota exceeded"))
           (u "why") [] init {| exc_str := u "quota exceeded" |}).
  - vm_compute. discriminate.
  - vm_compute. reflexivity.
Defined.

(** C4, as the claim has it, fails: the text of the exception is part of
    what [answer] returns, and another exception gives another text. *)
Lemma answer_error_leaks_detail :
  let leaked := result (answer demo_runtime (failing_services (u "quota exceeded"))
                          (u "why") []) init in
  leaked = u "❌ Bir hata oluştu: quota exceeded"
  /\ contains (u "quota exceeded") leaked = true
  /\ leaked <> result (answer demo_runtime (failing_services (u "timeout"))
                         (u "why") []) init.
Proof. vm_compute. repeat split; discriminate. Qed.

(** C5, at the failing input: a first call stores the context of its
    document; a second call on the same instance retrieves nothing, returns
    the message that nothing was found, and leaves the context of the first
    call in the field. *)
Theorem answer_keeps_stale_context :
  let w1 := after (answer demo_runtime stale_services (u "first") []) init in
  let second := run (answer demo_runtime stale_services (u "second") []) w1 in
  last_retrieved_context init = []
  /\ last_retrieved_context w1 = u "doc A"
  /\ result (retrieve_context demo_runtime stale_services (u "second")) w1 = []
  /\ second.1 = no_information_message
  /\ last_retrieved_context second.2 = u "doc A".
Proof. vm_compute. repeat split. Qed.

(** ** The removal of softening phrases *)

Section Softeners.









(** *** The occurrences that one pass finds *)















End Softeners.



(** ** The query expander *)

Section Expander.

Variable rt : runtime.
Variable sv : services.

Lemma lstrip_with_head p s c r : lstrip_with p s = c :: r -> p c = false.
Proof.
  induction s as [|a s IH]; simpl; [done |].
  destruct (p a) eqn:E; [done |]. by intros [= <- _].
Qed.

Lemma lstrip_with_suffix p s : exists pre, s = pre ++ lstrip_with p s.
Proof.
  induction s as [|a s [pre IH]]; simpl; [by exists [] |].
  destruct (p a).
  - exists (a :: pre). simpl. by rewrite <- IH.
  - by exists [].
Qed.

Lemma rstrip_with_prefix p s : exists post, s = rstrip_with p s ++ post.
Proof.
  unfold rstrip_with. destruct (lstrip_with_suffix p (reverse s)) as [pre H].
  exists (reverse pre). rewrite <- reverse_app, <- H. by rewrite reverse_involutive.
Qed.

Lemma strip_head s c r : strip s = c :: r -> isspace c = false.
Proof.
  unfold strip. intros H.
  destruct (rstrip_with_prefix isspace (lstrip_with isspace s)) as [post Hp].
  rewrite H in Hp. simpl in Hp. by apply lstrip_with_head in Hp.
Qed.

Lemma collect_queries_shape english response :
  head (collect_queries rt english response) = Some english
  /\ (1 <= length (collect_queries rt english response) <= 4)%nat.
Proof.
  unfold collect_queries. destruct response as [e|r]; [simpl; split; [done | lia] |].
  destruct (truthy_text r) as [t|]; [| simpl; split; [done | lia]].
  rewrite slice_to_nonneg by lia. change (Z.to_nat 4) with 4%nat.
  simpl. split; [done |]. rewrite length_take. lia.
Qed.

Lemma generate_multi_queries_result query w :
  exists response,
    result (generate_multi_queries rt sv query) w
    = collect_queries rt
        (english_form query
           (generate_content sv (length (generate_calls w))
              (request (translate_prompt query) (3 # 10) 100)))
        response.
Proof. unfold result, generate_multi_queries. rewrite !bind_run. by eexists. Qed.

(** C8, as the code has it: the expander returns between one and four
    queries; the first is the English form, that is the original query when
    the translation call raises or returns no text, and the stripped text of
    the translation otherwise; it is not empty when the original query is
    not empty and the translation, if it returns a text, returns one that is
    not all white space. *)
Theorem expand_bounds query w :
  let translation := generate_content sv (length (generate_calls w))
                       (request (translate_prompt query) (3 # 10) 100) in
  let queries := result (generate_multi_queries rt sv query) w in
  (1 <= length queries <= 4)%nat
  /\ head queries = Some (english_form query translation)
  /\ (query <> [] ->
      (forall r t, translation = Returned r -> truthy_text r = Some t -> strip t <> []) ->
      forall e, head queries = Some e -> e <> []).
Proof.
  cbv zeta. destruct (generate_multi_queries_result query w) as [response ->].
  destruct (collect_queries_shape
    (english_form query (generate_content sv (length (generate_calls w))
       (request (translate_prompt query) (3 # 10) 100))) response) as [Hh Hl].
  split; [done |]. split; [done |].
  intros Hq Ht e. rewrite Hh. intros [= <-]. unfold english_form.
  destruct (generate_content sv _ _) as [ex|r]; [done |].
  destruct (truthy_text r) as [t|] eqn:E; [| done].
  by apply (Ht r t).
Qed.

(** The candidates are read line by line, in the order of the lines. *)
Lemma parse_generated_lines text :
  parse_generated rt text = omap (parse_line rt) (split_on 10%N text).
Proof. by destruct text. Qed.

(** What a line that begins with a digit and has more than three
    characters gives. *)
Lemma parse_line_numbered line c r :
  strip line = c :: r -> isdigit rt c = true -> (3 < length (strip line))%nat ->
  parse_line rt line
  = match strip (lstrip_chars numbering_chars (strip line)) with
    | [] => None
    | cleaned => Some cleaned
    end.
Proof.
  intros Hs Hd Hl. unfold parse_line. destruct line as [|l0 line]; [done |].
  rewrite Hs in *. rewrite Hd. cbn [negb]. cbv iota.
  apply Nat.ltb_lt in Hl. rewrite Hl.
  by destruct (strip (lstrip_chars numbering_chars (c :: r))).
Qed.

(** C9, as the code has it: a candidate is never empty and never begins
    with white space; it comes from a line whose stripped form either does
    not begin with a digit and is the candidate as it is, or begins with a
    digit, has more than three characters and gives the candidate once the
    leading characters among [0123456789.- ] and the white space around the
    rest are removed. A stripped line that does not begin with a digit is
    always kept, whatever its length and its first character; one that
    begins with a digit and has at most three characters is dropped. A
    stripped line that begins with a digit and has more than three
    characters gives its cleaned text, the line without its leading
    characters among [0123456789.- ] and without the white space around the
    rest, when that text is not empty, and nothing when it is empty. The
    candidates are those of the lines, one at most for a line, in the order
    of the lines. *)
Theorem parse_generated_candidates text :
  (forall cand, cand ∈ parse_generated rt text ->
     cand <> []
     /\ (forall c, head cand = Some c -> isspace c = false)
     /\ exists line c r,
          line ∈ split_on 10%N text /\ strip line = c :: r
          /\ ((isdigit rt c = false /\ cand = strip line)
              \/ (isdigit rt c = true /\ (3 < length (strip line))%nat
                  /\ cand = strip (lstrip_chars numbering_chars (strip line)))))
  /\ (forall line c r,
        line ∈ split_on 10%N text -> strip line = c :: r -> isdigit rt c = false ->
        strip line ∈ parse_generated rt text)
  /\ (forall line c r,
        strip line = c :: r -> isdigit rt c = true ->
        (length (strip line) <= 3)%nat -> parse_line rt line = None)
  /\ (forall line c r,
        strip line = c :: r -> isdigit rt c = true ->
        (3 < length (strip line))%nat ->
        let cleaned := strip (lstrip_chars numbering_chars (strip line)) in
        (cleaned <> [] -> parse_line rt line = Some cleaned)
        /\ (cleaned = [] -> parse_line rt line = None)
        /\ (line ∈ split_on 10%N text -> cleaned <> [] ->
            cleaned ∈ parse_generated rt text))
  /\ (forall line, strip line = [] -> parse_line rt line = None)
  /\ parse_generated rt text = omap (parse_line rt) (split_on 10%N text).
Proof.
  split; [| split; [| split; [| split; [| split]]]].
  - intros cand Hc. unfold parse_generated in Hc.
    destruct text as [|a text]; [by inversion Hc |].
    apply list_elem_of_omap in Hc as (line & Hin & Hp).
    unfold parse_line in Hp. destruct line as [|l0 line]; [done |].
    destruct (strip (l0 :: line)) as [|c r] eqn:Es; [done |].
    destruct (isdigit rt c) eqn:Ed; cbn [negb] in Hp.
    + destruct (3 <? length (c :: r))%nat eqn:El; [| done].
      destruct (strip (lstrip_chars numbering_chars (c :: r))) as [|c' r'] eqn:Ec;
        [done |].
      injection Hp as <-. split; [done |]. split.
      * intros c0 [= <-]. by eapply strip_head.
      * exists (l0 :: line), c, r. rewrite Es. repeat split; [done |].
        right. apply Nat.ltb_lt in El. by rewrite Ec.
    + injection Hp as <-. split; [done |]. split.
      * intros c0 [= <-]. by eapply strip_head.
      * exists (l0 :: line), c, r. rewrite Es. repeat split; [done |]. by left.
  - intros line c r Hin Hs Hd. unfold parse_generated.
    destruct text as [|a text].
    { simpl in Hin. apply list_elem_of_singleton in Hin as ->. done. }
    apply list_elem_of_omap. exists line. split; [done |].
    unfold parse_line. destruct line as [|l0 line]; [done |].
    rewrite Hs. by rewrite Hd.
  - intros line c r Hs Hd Hl. unfold parse_line.
    destruct line as [|l0 line]; [done |].
    rewrite Hs in *. rewrite Hd. simpl negb. cbv iota.
    destruct (Nat.ltb_spec 3 (length (c :: r))); [lia | done].
  - intros line c r Hs Hd Hl cleaned.
    pose proof (parse_line_numbered line c r Hs Hd Hl) as Hp. fold cleaned in Hp.
    split; [| split].
    + intros Hne. rewrite Hp. by destruct cleaned.
    + intros He. rewrite Hp. by rewrite He.
    + intros Hin Hne. rewrite parse_generated_lines.
      apply list_elem_of_omap. exists line. split; [done |].
      rewrite Hp. by destruct cleaned.
  - intros line Hs. unfold parse_line. destruct line as [|l0 line]; [done |].
    by rewrite Hs.
  - apply parse_generated_lines.
Qed.

End Expander.

Lemma expand_bounds_witness :
  u "Kadınlar neden hipergamiktir?" <> [] /\
  head (result (generate_multi_queries demo_runtime
                  (translating_services (u " Why are women hypergamous? "))
                  (u "Kadınlar neden hipergamiktir?")) init)
  = Some (u "Why are women hypergamous?") /\
  (u "Why are women hypergamous?" = [] -> False).
Proof.
  destruct (expand_bounds demo_runtime
              (translating_services (u " Why are women hypergamous? "))
              (u "Kadınlar neden hipergamiktir?") init) as (_ & Hhead & Hne).
  split; [vm_compute; discriminate |].
  split; [rewrite Hhead; vm_compute; reflexivity |].
  apply Hne.
  - vm_compute. discriminate.
  - intros r t. vm_compute. intros [= <-] [= <-]. discriminate.
  - rewrite Hhead. vm_compute. reflexivity.
Defined.

(** C8, as the claim has it, fails: with an empty query and a translation
    call that raises, the only query returned is the empty string; so it
    is with a translation that consists of white space. *)
Lemma expand_first_empty :
  result (generate_multi_queries demo_runtime no_reranker_services []) init = [[]]
  /\ result (generate_multi_queries demo_runtime (translating_services (u " "))
               (u "merhaba")) init = [[]].
Proof. vm_compute. split; reflexivity. Qed.

Lemma parse_generated_candidates_witness :
  (u "- What is hypergamy?" <> []
   /\ (forall c, head (u "- What is hypergamy?") = Some c -> isspace c = false)
   /\ exists line c r,
        line ∈ split_on 10%N demo_variations /\ strip line = c :: r
        /\ ((isdigit demo_runtime c = false /\ u "- What is hypergamy?" = strip line)
            \/ (isdigit demo_runtime c = true /\ (3 < length (strip line))%nat
                /\ u "- What is hypergamy?"
                   = strip (lstrip_chars numbering_chars (strip line)))))
  /\ parse_line demo_runtime (u "1. a") = Some (u "a")
  /\ u "a" ∈ parse_generated demo_runtime demo_variations
  /\ parse_line demo_runtime (u "12") = None.
Proof.
  destruct (parse_generated_candidates demo_runtime demo_variations)
    as (Hfrom & _ & Hshort & Hnumbered & _).
  split; [apply Hfrom; vm_compute; left |].
  destruct (Hnumbered (u "1. a") 49%N (u ". a")) as (Hsome & _ & Hin);
    [vm_compute; reflexivity | vm_compute; reflexivity | vm_compute; lia |].
  split; [apply Hsome; vm_compute; discriminate |].
  split; [apply Hin; [vm_compute; right; left | vm_compute; discriminate] |].
  apply (Hshort (u "12") 49%N (u "2")); [vm_compute; reflexivity .. |].
  vm_compute. lia.
Defined.

(** C9, as the claim has it, fails: a line that begins with a dash is kept
    with its dash; a numbered line whose text after the number has a single
    character is kept; a line of two characters is kept. *)
Lemma candidate_keeps_marker :
  result (generate_multi_queries demo_runtime (varying_services demo_variations)
            (u "hypergamy")) init
  = [ u "hypergamy"; u "- What is hypergamy?"; u "a"; u "ab" ].
Proof. vm_compute. reflexivity. Qed.

(** ** The retriever *)

Section Retriever.

Variable rt : runtime.
Variable sv : services.

Implicit Types (t : list N * list (list N * meta_value) * Q).
Implicit Types (ts kept : list (list N * list (list N * meta_value) * Q)).

Lemma holds_add acc kept seen t :
  holds rt acc kept seen ->
  hash rt (fingerprint t.1.1) ∉ seen_docs acc ->
  holds rt (add_document rt acc t) (kept ++ [t]) (fingerprint t.1.1 :: seen).
Proof.
  intros (Hd & Hm & Hx & Hs) Hn. destruct t as [[doc meta] dist].
  unfold add_document. simpl in *. fold (fingerprint doc).
  destruct (decide (hash rt (fingerprint doc) ∈ seen_docs acc)); [done |].
  repeat split; simpl.
  - by rewrite Hd, !fmap_app.
  - by rewrite Hm, !fmap_app.
  - by rewrite Hx, !fmap_app.
  - intros Hh. apply elem_of_union in Hh as [Hh | Hh].
    + apply elem_of_singleton in Hh. exists (fingerprint doc). split; [left | done].
    + apply Hs in Hh as (p & Hp & ->). exists p. split; [by right | done].
  - intros (p & Hp & ->). apply elem_of_cons in Hp as [-> | Hp].
    + apply elem_of_union. left. by apply elem_of_singleton.
    + apply elem_of_union. right. apply Hs. by exists p.
Qed.

(** The loop of the source keeps what [keep_first] keeps. *)
Lemma add_documents_keep_first ts : forall acc kept seen,
  holds rt acc kept seen ->
  (forall p1 p2, p1 ∈ seen ++ ((fun t => fingerprint t.1.1) <$> ts) ->
                 p2 ∈ seen ++ ((fun t => fingerprint t.1.1) <$> ts) ->
                 hash rt p1 = hash rt p2 -> p1 = p2) ->
  exists seen',
    holds rt (foldl (add_document rt) acc ts) (kept ++ keep_first seen ts) seen'.
Proof.
  induction ts as [|t ts IH]; intros acc kept seen Hh Hinj.
  - exists seen. simpl. by rewrite app_nil_r.
  - simpl. destruct (decide (fingerprint t.1.1 ∈ seen)) as [Hin | Hout].
    + assert (add_document rt acc t = acc) as ->.
      { destruct t as [[doc meta] dist]. unfold add_document. simpl in *.
        fold (fingerprint doc).
        destruct (decide (hash rt (fingerprint doc) ∈ seen_docs acc)) as [|Hn];
          [done |].
        exfalso. apply Hn. destruct Hh as (_ & _ & _ & Hs). apply Hs.
        by exists (fingerprint doc). }
      apply (IH acc kept seen Hh). intros p1 p2 H1 H2. apply Hinj.
      * apply elem_of_app in H1 as [H1 | H1]; apply elem_of_app;
          [by left | right; by right].
      * apply elem_of_app in H2 as [H2 | H2]; apply elem_of_app;
          [by left | right; by right].
    + assert (hash rt (fingerprint t.1.1) ∉ seen_docs acc) as Hn.
      { intros Hs'. destruct Hh as (_ & _ & _ & Hs).
        apply Hs in Hs' as (p & Hp & Heq). apply Hout.
        rewrite (Hinj (fingerprint t.1.1) p); [done | | | done].
        - apply elem_of_app. right. left.
        - apply elem_of_app. by left. }
      destruct (IH (add_document rt acc t) (kept ++ [t])
                  (fingerprint t.1.1 :: seen) (holds_add _ _ _ _ Hh Hn))
        as [seen' Hs'].
      * intros p1 p2 H1 H2. apply Hinj.
        -- apply elem_of_app. apply elem_of_app in H1 as [H1 | H1].
           ++ apply elem_of_cons in H1 as [-> | H1]; [right; left | by left].
           ++ right. by right.
        -- apply elem_of_app. apply elem_of_app in H2 as [H2 | H2].
           ++ apply elem_of_cons in H2 as [-> | H2]; [right; left | by left].
           ++ right. by right.
      * exists seen'. by rewrite <- app_assoc in Hs'.
Qed.

(** What [keep_first] keeps of one fingerprint. *)
Lemma keep_first_seen p ts : forall seen,
  p ∈ seen ->
  filter (fun x => fingerprint x.1.1 = p) (keep_first seen ts) = [].
Proof.
  induction ts as [|x ts IH]; intros seen Hp; simpl; [done |].
  destruct (decide (fingerprint x.1.1 ∈ seen)) as [Hin | Hout]; [by apply IH |].
  rewrite filter_cons_False by (simpl; intros <-; done).
  apply IH. by right.
Qed.

Lemma keep_first_first p ts : forall seen t,
  p ∉ seen -> t ∈ ts -> fingerprint t.1.1 = p ->
  exists before t0 rest,
    ts = before ++ t0 :: rest
    /\ fingerprint t0.1.1 = p
    /\ (forall x, x ∈ before -> fingerprint x.1.1 <> p)
    /\ filter (fun x => fingerprint x.1.1 = p) (keep_first seen ts) = [t0].
Proof.
  induction ts as [|x ts IH]; intros seen t Hp Ht Hf; [by inversion Ht |].
  simpl. destruct (decide (fingerprint x.1.1 = p)) as [Hx | Hx].
  - exists [], x, ts. repeat split; [done | by intros y Hy; inversion Hy |].
    destruct (decide (fingerprint x.1.1 ∈ seen)) as [Hin | Hout];
      [by rewrite Hx in Hin |].
    rewrite filter_cons_True by done. f_equal.
    apply keep_first_seen. rewrite Hx. left.
  - apply elem_of_cons in Ht as [-> | Ht]; [done |].
    destruct (decide (fingerprint x.1.1 ∈ seen)) as [Hin | Hout].
    + destruct (IH seen t Hp Ht Hf) as (before & t0 & rest & -> & H1 & H2 & H3).
      exists (x :: before), t0, rest. repeat split; [done | | done].
      intros y Hy. apply elem_of_cons in Hy as [-> | Hy]; [done | by apply H2].
    + destruct (IH (fingerprint x.1.1 :: seen) t) as
        (before & t0 & rest & -> & H1 & H2 & H3); [| done | done |].
      { apply not_elem_of_cons. split; [congruence | done]. }
      exists (x :: before), t0, rest. repeat split; [done | |].
      * intros y Hy. apply elem_of_cons in Hy as [-> | Hy]; [done | by apply H2].
      * by rewrite filter_cons_False.
Qed.

(** The loops visit [visited_triples]. *)
Lemma retrieve_for_query_visits n acc query w :
  retrieve_for_query rt sv n acc query w
  = (foldl (add_document rt) acc (triples_for_query sv n query w).1,
     (triples_for_query sv n query w).2).
Proof.
  unfold retrieve_for_query, triples_for_query, mbind, M_bind,
    get_query_embedding, call_query. simpl.
  destruct (embed_content sv (embed_calls w) query) as [e|[v|]]; simpl; try done.
  by destruct (collection_query sv (query_calls w) v n).
Qed.

Lemma retrieve_loop_visits n queries : forall acc w,
  retrieve_loop rt sv n queries acc w
  = (foldl (add_document rt) acc (visited_triples sv n queries w).1,
     (visited_triples sv n queries w).2).
Proof.
  induction queries as [|q queries IH]; intros acc w; simpl; [done |].
  rewrite !bind_run. rewrite retrieve_for_query_visits. simpl.
  rewrite IH. by rewrite foldl_app.
Qed.

Lemma filter_fmap_docs p kept :
  filter (fun d => fingerprint d = p) (kept.*1.*1)
  = (filter (fun x => fingerprint x.1.1 = p) kept).*1.*1.
Proof.
  induction kept as [|x kept IH]; [done |].
  rewrite !fmap_cons.
  destruct (decide (fingerprint x.1.1 = p)) as [Hx | Hx].
  - rewrite !filter_cons_True by done. rewrite !fmap_cons. by rewrite IH.
  - by rewrite !filter_cons_False.
Qed.

(** C1: of all the documents that the lookups of one run return with the
    same first 200 characters, the aggregated result holds exactly one, the
    first that the run met, with its metadata and its distance; this for a
    [hash] that tells the fingerprints met in the run apart. *)
Theorem retrieve_documents_dedup queries n w :
  let visited := result (visited_triples sv n queries) w in
  let aggregated := result (retrieve_documents rt sv queries n) w in
  collision_free rt (visited.*1.*1) ->
  exists kept,
    documents aggregated = kept.*1.*1
    /\ metadatas aggregated = kept.*1.*2
    /\ distances aggregated = kept.*2
    /\ forall t, t ∈ visited ->
         exists before t0 rest,
           visited = before ++ t0 :: rest
           /\ fingerprint t0.1.1 = fingerprint t.1.1
           /\ (forall x, x ∈ before -> fingerprint x.1.1 <> fingerprint t.1.1)
           /\ filter (fun x => fingerprint x.1.1 = fingerprint t.1.1) kept = [t0]
           /\ filter (fun d => fingerprint d = fingerprint t.1.1)
                 (documents aggregated) = [t0.1.1].
Proof.
  cbv zeta. intros Hfree. unfold result at 2 3 4 6, retrieve_documents.
  unfold result at 1. unfold result in Hfree.
  rewrite bind_run. rewrite retrieve_loop_visits. simpl.
  set (ts := (visited_triples sv n queries w).1) in *.
  destruct (add_documents_keep_first ts
              {| all_documents := []; all_metadatas := []; all_distances := [];
                 seen_docs := ∅ |} [] [])
    as [seen' (Hd & Hm & Hx & _)].
  { unfold holds. simpl. split; [done |]. split; [done |]. split; [done |].
    intros h. split.
    - intros H. by apply not_elem_of_empty in H.
    - intros (p & Hp & _). by inversion Hp. }
  { simpl. intros p1 p2 H1 H2.
    apply list_elem_of_fmap in H1 as (t1 & -> & H1).
    apply list_elem_of_fmap in H2 as (t2 & -> & H2).
    apply Hfree; apply list_elem_of_fmap.
    - exists t1.1. split; [done |]. apply list_elem_of_fmap. by exists t1.
    - exists t2.1. split; [done |]. apply list_elem_of_fmap. by exists t2. }
  simpl in Hd, Hm, Hx. exists (keep_first [] ts).
  split; [done |]. split; [done |]. split; [done |].
  intros t Ht.
  destruct (keep_first_first (fingerprint t.1.1) ts [] t)
    as (before & t0 & rest & H0 & H1 & H2 & H3); [by inversion 1 | done | done |].
  exists before, t0, rest. repeat split; try done.
  rewrite Hd, filter_fmap_docs, H3. done.
Qed.

End Retriever.

Lemma retrieve_documents_dedup_witness :
  exists kept : list (str * metadata * Q),
    documents (result (retrieve_documents demo_runtime overlapping_services
                         [u "q1"; u "q2"] 12) init) = kept.*1.*1
    /\ kept.*2 = [1 # 10; 2 # 10; 4 # 10]%Q.
Proof.
  destruct (retrieve_documents_dedup demo_runtime overlapping_services
              [u "q1"; u "q2"] 12 init) as (kept & Hd & _ & Hx & _).
  - intros d1 d2 H1 H2. vm_compute in H1, H2.
    repeat (apply elem_of_cons in H1 as [-> | H1]);
      try (by inversion H1);
      repeat (apply elem_of_cons in H2 as [-> | H2]);
      try (by inversion H2); vm_compute; congruence.
  - exists kept. split; [exact Hd |]. rewrite <- Hx. vm_compute. reflexivity.
Defined.

(** ** Runs on concrete inputs *)

Example u_decodes :
  u "değil ❌" = [100; 101; 287; 105; 108; 32; 10060]%N.
Proof. reflexivity. Qed.

Example replace_leftmost_first :
  replace (u "aXXbXXX") (u "XX") (u "-") = u "a-b-X"
  /\ replace (u "abc") [] (u "-") = u "-a-b-c-".
Proof. split; reflexivity. Qed.

Example split_keeps_empty_lines :
  split_on 10%N (nl ++ u "a" ++ nl ++ nl ++ u "bc") = [[]; u "a"; []; u "bc"]
  /\ split_on 10%N [] = [[]].
Proof. split; reflexivity. Qed.

Example slice_to_negative :
  slice_to [1; 2; 3; 4] 2 = [1; 2] /\ slice_to [1; 2; 3; 4] (-1) = [1; 2; 3]
  /\ slice_to [1; 2; 3; 4] (-9) = [] /\ slice_to [1; 2; 3; 4] 9 = [1; 2; 3; 4].
Proof. repeat split; reflexivity. Qed.

Example strip_both_ends : strip (u "  1. soru " ++ [9%N] ++ nl) = u "1. soru".
Proof. reflexivity. Qed.

Example sort_is_stable :
  sorted_doc_scores [u "a"; u "b"; u "c"; u "d"] [1 # 1; 2 # 1; 1 # 1; 2 # 1]%Q
  = [ (u "b", 2 # 1); (u "d", 2 # 1); (u "a", 1 # 1); (u "c", 1 # 1) ]%Q.
Proof. vm_compute. reflexivity. Qed.

Example parse_numbered_line :
  parse_line demo_runtime (u " 2) Why do women marry up? ")
  = Some (u ") Why do women marry up?")
  /\ parse_line demo_runtime (u "1.") = None
  /\ parse_line demo_runtime (u "10. x") = Some (u "x").
Proof. vm_compute. repeat split. Qed.

Example rerank_by_score :
  result (rerank_documents confident_services (u "why") demo_docs 2) init
  = [ (u "beta doc", Relevance (2 # 1)); (u "delta doc", Relevance (1 # 1)) ].
Proof. vm_compute. reflexivity. Qed.

Example rerank_low_scores_keep_order :
  result (rerank_documents low_score_services (u "why") demo_docs 2) init
  = [ (u "alpha doc", Position 0); (u "beta doc", Position 1) ]
  /\ (sorted_doc_scores demo_docs low_scores).*1
     = [ u "delta doc"; u "beta doc"; u "alpha doc"; u "gamma doc" ].
Proof. vm_compute. split; reflexivity. Qed.

Example rerank_translates_turkish_query :
  length (generate_calls
            (after (rerank_documents confident_services (u "Kadınlar neden?")
                      demo_docs 2) init)) = 1%nat
  /\ generate_calls
       (after (rerank_documents confident_services (u "Why?") demo_docs 2) init)
     = [].
Proof. vm_compute. split; reflexivity. Qed.

Example long_document_returned_whole :
  (rerank_pairs (u "why") [long_doc]).*2 = [replicate 400 97%N]
  /\ result (rerank_documents confident_services (u "why") [long_doc] 6) init
     = [ (long_doc, Relevance (5 # 10)) ]
  /\ result (retrieve_context demo_runtime
               (scripted (fun _ => fails (u "down"))
                  (fun _ => Returned (Some [1 # 1]%Q))
                  (fun _ => found [ (long_doc, 1 # 10)%Q ])
                  (Some (fun _ => Returned [ 5 # 10 ]%Q)))
               (u "why")) init
     = long_doc.
Proof. vm_compute. repeat split. Qed.

Example retrieval_drops_second_alpha :
  result (retrieve_documents demo_runtime overlapping_services [u "q1"; u "q2"] 12) init
  = {| documents := [ u "alpha doc"; u "beta doc"; u "gamma doc" ];
       metadatas := [ []; []; [] ];
       distances := [ 1 # 10; 2 # 10; 4 # 10 ]%Q |}.
Proof. vm_compute. reflexivity. Qed.

Example context_by_distance :
  result (retrieve_context demo_runtime no_reranker_services (u "why")) init
  = u "alpha doc" ++ context_separator ++ u "beta doc" ++ context_separator
    ++ u "gamma doc" ++ context_separator ++ u "delta doc".
Proof. vm_compute. reflexivity. Qed.

Example answer_removes_softener :
  run (answer demo_runtime (answering_services (u "Bu belki de dogru.")) (u "why") []) init
  = (u "Bu  dogru.",
     {| generate_calls :=
          [ request (translate_prompt (u "why")) (3 # 10) 100;
            request (variations_prompt (u "why")) (7 # 10) 200;
            request (system_prompt []
                       (result (retrieve_context demo_runtime no_reranker_services
                                  (u "why")) init)
                       (u "why")) (3 # 10) 2048 ];
        embed_calls := 1; query_calls := 1;
        last_retrieved_context :=
          result (retrieve_context demo_runtime no_reranker_services (u "why")) init |}).
Proof. vm_compute. reflexivity. Qed.

Example answer_removes_every_occurrence :
  answer_of_response (says (u "olabilir ki bu olabilir.")) = u " ki bu ."
  /\ answer_of_response (says (u "belki de, herkes farklıdır.")) = u ", ."
  /\ deletes (u "aa") (u "aaa") (u "a").
Proof.
  split; [vm_compute; reflexivity |]. split; [vm_compute; reflexivity |].
  apply (deletes_hit (u "aa") [] (u "a") (u "a")).
  - intros m Hm. simpl in Hm. lia.
  - by apply deletes_none.
Qed.

Example answer_without_text :
  result (answer demo_runtime (answering_services []) (u "why") []) init
  = no_answer_message.
Proof. vm_compute. reflexivity. Qed.

(** ** More on the retriever *)

Section RetrieverMore.

Variable rt : runtime.
Variable sv : services.

Implicit Types (t : list N * list (list N * meta_value) * Q).
Implicit Types (ts kept : list (list N * list (list N * meta_value) * Q)).

Lemma aggregates_step acc kept t :
  aggregates rt acc kept ->
  (add_document rt acc t = acc /\ hash rt (fingerprint t.1.1) ∈ seen_docs acc)
  \/ aggregates rt (add_document rt acc t) (kept ++ [t]).
Proof.
  intros (Hd & Hm & Hx & Hs & Hn). destruct t as [[doc meta] dist].
  unfold add_document. simpl. fold (fingerprint doc).
  destruct (decide (hash rt (fingerprint doc) ∈ seen_docs acc)) as [Hin | Hout];
    [by left | right].
  repeat split; simpl.
  - by rewrite Hd, !fmap_app.
  - by rewrite Hm, !fmap_app.
  - by rewrite Hx, !fmap_app.
  - intros Hh. apply elem_of_union in Hh as [Hh | Hh].
    + apply elem_of_singleton in Hh. exists (doc, meta, dist).
      split; [apply elem_of_app; right; left | done].
    + apply Hs in Hh as (t & Ht & ->). exists t.
      split; [apply elem_of_app; by left | done].
  - intros (t & Ht & ->). apply elem_of_app in Ht as [Ht | Ht].
    + apply elem_of_union. right. apply Hs. by exists t.
    + apply list_elem_of_singleton in Ht as ->. apply elem_of_union. left.
      by apply elem_of_singleton.
  - rewrite fmap_app. apply NoDup_app. split; [done |]. split.
    + intros h Hh Hh'. simpl in Hh'. apply list_elem_of_singleton in Hh' as ->.
      apply Hout, Hs. apply list_elem_of_fmap in Hh as (t & Ht1 & Ht2).
      by exists t.
    + simpl. apply NoDup_singleton.
Qed.

Lemma aggregates_fold ts : forall acc kept,
  aggregates rt acc kept ->
  exists kept', sublist kept' ts
    /\ aggregates rt (foldl (add_document rt) acc ts) (kept ++ kept').
Proof.
  induction ts as [|t ts IH]; intros acc kept Hagg; simpl.
  - exists []. split; [done |]. by rewrite app_nil_r.
  - destruct (aggregates_step acc kept t Hagg) as [[-> _] | Hstep].
    + destruct (IH acc kept Hagg) as (kept' & Hsub & H).
      exists kept'. split; [by apply sublist_cons | done].
    + destruct (IH _ _ Hstep) as (kept' & Hsub & H).
      exists (t :: kept'). split; [by apply sublist_skip |].
      by rewrite <- app_assoc in H.
Qed.

Lemma aggregates_empty :
  aggregates rt {| all_documents := []; all_metadatas := []; all_distances := [];
                   seen_docs := ∅ |} [].
Proof.
  unfold aggregates. simpl. split; [done |]. split; [done |]. split; [done |].
  split; [| constructor]. intros h. split.
  - intros H. by apply not_elem_of_empty in H.
  - intros (t & Ht & _). by inversion Ht.
Qed.

Lemma retrieve_documents_aggregates queries n w :
  exists kept,
    sublist kept (result (visited_triples sv n queries) w)
    /\ aggregates rt
         {| all_documents := documents (result (retrieve_documents rt sv queries n) w);
            all_metadatas := metadatas (result (retrieve_documents rt sv queries n) w);
            all_distances := distances (result (retrieve_documents rt sv queries n) w);
            seen_docs := seen_docs (foldl (add_document rt)
                           {| all_documents := []; all_metadatas := [];
                              all_distances := []; seen_docs := ∅ |}
                           (result (visited_triples sv n queries) w)) |}
         kept.
Proof.
  unfold result, retrieve_documents. rewrite bind_run.
  rewrite (retrieve_loop_visits rt sv). simpl.
  destruct (aggregates_fold (visited_triples sv n queries w).1 _ _ aggregates_empty)
    as (kept & Hsub & Hagg).
  exists kept. split; [done |]. exact Hagg.
Qed.

(** X1: the aggregated lists are aligned: they are the documents, the metadata
    and the distances of one subsequence of the triples visited, in the
    order of the visit; nothing is invented or reordered. *)
Theorem retrieve_documents_subsequence queries n w :
  let aggregated := result (retrieve_documents rt sv queries n) w in
  exists kept,
    sublist kept (result (visited_triples sv n queries) w)
    /\ documents aggregated = kept.*1.*1
    /\ metadatas aggregated = kept.*1.*2
    /\ distances aggregated = kept.*2
    /\ length (documents aggregated) = length (metadatas aggregated)
    /\ length (documents aggregated) = length (distances aggregated).
Proof.
  cbv zeta. destruct (retrieve_documents_aggregates queries n w)
    as (kept & Hsub & H1 & H2 & H3 & _). simpl in *.
  exists kept. rewrite H1, H2, H3. repeat split; try done.
  - by rewrite !length_fmap.
  - by rewrite !length_fmap.
Qed.

(** X2: whatever [hash] does, no two aggregated documents have the same first
    200 characters. *)
Theorem retrieve_documents_distinct_prefixes queries n w :
  NoDup (fingerprint <$> documents (result (retrieve_documents rt sv queries n) w)).
Proof.
  destruct (retrieve_documents_aggregates queries n w)
    as (kept & _ & H1 & _ & _ & _ & Hn). simpl in *.
  rewrite H1. apply (NoDup_fmap_1 (hash rt)).
  rewrite <- !list_fmap_compose.
  erewrite list_fmap_ext; [exact Hn |]. by intros _ [[d m] x] _.
Qed.

End RetrieverMore.

Section RetrieverCalls.

Variable rt : runtime.
Variable sv : services.

Implicit Types (ts : list (list N * list (list N * meta_value) * Q)).

Lemma triples_for_query_calls n query w :
  let w' := (triples_for_query sv n query w).2 in
  embed_calls w' = S (embed_calls w)
  /\ (query_calls w <= query_calls w' <= S (query_calls w))%nat
  /\ generate_calls w' = generate_calls w
  /\ last_retrieved_context w' = last_retrieved_context w.
Proof.
  unfold triples_for_query, mbind, M_bind, get_query_embedding, call_query.
  simpl. destruct (embed_content sv (embed_calls w) query) as [e|[v|]]; simpl;
    repeat split; lia.
Qed.

Lemma visited_triples_calls n queries : forall w,
  let w' := (visited_triples sv n queries w).2 in
  embed_calls w' = (embed_calls w + length queries)%nat
  /\ (query_calls w <= query_calls w' <= query_calls w + length queries)%nat
  /\ generate_calls w' = generate_calls w
  /\ last_retrieved_context w' = last_retrieved_context w.
Proof.
  induction queries as [|q queries IH]; intros w; simpl.
  - repeat split; lia.
  - rewrite !bind_run. simpl.
    destruct (triples_for_query_calls n q w) as (H1 & H2 & H3 & H4).
    destruct (IH (triples_for_query sv n q w).2) as (H5 & H6 & H7 & H8).
    simpl in *. repeat split; try lia; congruence.
Qed.

Lemma retrieve_documents_after queries n w :
  after (retrieve_documents rt sv queries n) w = (visited_triples sv n queries w).2.
Proof.
  unfold after, retrieve_documents. rewrite bind_run.
  by rewrite (retrieve_loop_visits rt sv).
Qed.

Lemma retrieve_documents_counters queries n w :
  let w' := after (retrieve_documents rt sv queries n) w in
  embed_calls w' = (embed_calls w + length queries)%nat
  /\ (query_calls w <= query_calls w' <= query_calls w + length queries)%nat
  /\ generate_calls w' = generate_calls w
  /\ last_retrieved_context w' = last_retrieved_context w.
Proof.
  cbv zeta. rewrite retrieve_documents_after. apply visited_triples_calls.
Qed.

(** X5: [retrieve_documents] asks for one embedding per query and makes at
    most one lookup per query; it makes no generative call and leaves the
    stored context alone. *)
Theorem retrieve_documents_calls queries n w :
  let w' := after (retrieve_documents rt sv queries n) w in
  embed_calls w' = (embed_calls w + length queries)%nat
  /\ (query_calls w <= query_calls w' <= query_calls w + length queries)%nat
  /\ generate_calls w' = generate_calls w
  /\ last_retrieved_context w' = last_retrieved_context w.
Proof.
  apply retrieve_documents_counters.
Qed.

Lemma visited_triples_embedding_down n queries : forall w,
  (forall k q v, embed_content sv k q <> Returned (Some v)) ->
  (visited_triples sv n queries w).1 = []
  /\ query_calls (visited_triples sv n queries w).2 = query_calls w.
Proof.
  induction queries as [|q queries IH]; intros w Hdown; simpl; [done |].
  rewrite !bind_run. simpl.
  assert (triples_for_query sv n q w
          = ([], {| generate_calls := generate_calls w;
                    embed_calls := S (embed_calls w);
                    query_calls := query_calls w;
                    last_retrieved_context := last_retrieved_context w |})) as ->.
  { unfold triples_for_query, mbind, M_bind, get_query_embedding. simpl.
    destruct (embed_content sv (embed_calls w) q) as [e|[v|]] eqn:E; try done.
    by apply Hdown in E. }
  simpl.
  match goal with
  | |- context [visited_triples sv n queries ?w1] =>
      destruct (IH w1 Hdown) as [-> ->]
  end.
  done.
Qed.

(** X4: when no embedding can be had, because every embedding call raises or
    returns no vector, [retrieve_documents] returns three empty lists and
    never queries the vector store. *)
Theorem retrieve_documents_embedding_down queries n w :
  (forall k q v, embed_content sv k q <> Returned (Some v)) ->
  result (retrieve_documents rt sv queries n) w
  = {| documents := []; metadatas := []; distances := [] |}
  /\ query_calls (after (retrieve_documents rt sv queries n) w) = query_calls w.
Proof.
  intros Hdown. rewrite retrieve_documents_after.
  destruct (visited_triples_embedding_down n queries w Hdown) as [Hv Hq].
  split; [| done].
  unfold result, retrieve_documents. rewrite bind_run.
  rewrite (retrieve_loop_visits rt sv). simpl. by rewrite Hv.
Qed.

Lemma add_documents_prefix ts : forall acc,
  all_documents acc `prefix_of` all_documents (foldl (add_document rt) acc ts).
Proof.
  induction ts as [|t ts IH]; intros acc; simpl; [done |].
  etrans; [| apply IH]. destruct t as [[doc meta] dist]. unfold add_document.
  destruct (decide _); [done |]. simpl. by apply prefix_app_r.
Qed.

Lemma visited_triples_app n qs1 qs2 w :
  (visited_triples sv n (qs1 ++ qs2) w).1
  = (visited_triples sv n qs1 w).1
    ++ (visited_triples sv n qs2 (visited_triples sv n qs1 w).2).1.
Proof.
  revert w. induction qs1 as [|q qs1 IH]; intros w; simpl.
  - done.
  - rewrite !bind_run. simpl. rewrite IH. by rewrite app_assoc.
Qed.

(** X6: queries added at the end only add documents at the end: what the first
    queries collected stays, in place, whatever the later lookups do. *)
Theorem retrieve_documents_monotone qs1 qs2 n w :
  documents (result (retrieve_documents rt sv qs1 n) w)
  `prefix_of` documents (result (retrieve_documents rt sv (qs1 ++ qs2) n) w).
Proof.
  unfold result, retrieve_documents. rewrite !bind_run.
  rewrite !(retrieve_loop_visits rt sv). simpl.
  rewrite visited_triples_app, foldl_app. apply add_documents_prefix.
Qed.

Lemma keep_first_all ts : forall seen,
  NoDup ((fun t => fingerprint t.1.1) <$> ts) ->
  (forall t, t ∈ ts -> fingerprint t.1.1 ∉ seen) ->
  keep_first seen ts = ts.
Proof.
  induction ts as [|t ts IH]; intros seen Hn Hs; simpl; [done |].
  rewrite fmap_cons in Hn. apply NoDup_cons in Hn as [Hn1 Hn2].
  destruct (decide (fingerprint t.1.1 ∈ seen)) as [Hin | Hout].
  - exfalso. by apply (Hs t); [left |].
  - f_equal. apply IH; [done |]. intros x Hx Hin.
    apply elem_of_cons in Hin as [Heq | Hin].
    + apply Hn1. rewrite <- Heq. apply list_elem_of_fmap. by exists x.
    + apply (Hs x); [by right | done].
Qed.

(** X3: when the documents visited all differ in their first 200 characters,
    and [hash] tells these apart, nothing is dropped: the aggregated lists
    are the visited triples, in order. *)
Theorem retrieve_documents_keeps_distinct queries n w :
  let visited := result (visited_triples sv n queries) w in
  let aggregated := result (retrieve_documents rt sv queries n) w in
  collision_free rt (visited.*1.*1) ->
  NoDup (fingerprint <$> visited.*1.*1) ->
  documents aggregated = visited.*1.*1
  /\ metadatas aggregated = visited.*1.*2
  /\ distances aggregated = visited.*2.
Proof.
  cbv zeta. intros Hfree Hn. unfold result in *. unfold retrieve_documents.
  rewrite bind_run. rewrite (retrieve_loop_visits rt sv). simpl.
  set (ts := (visited_triples sv n queries w).1) in *.
  destruct (add_documents_keep_first rt ts
              {| all_documents := []; all_metadatas := []; all_distances := [];
                 seen_docs := ∅ |} [] [])
    as [seen' (Hd & Hm & Hx & _)].
  { unfold holds. simpl. split; [done |]. split; [done |]. split; [done |].
    intros h. split.
    - intros H. by apply not_elem_of_empty in H.
    - intros (p & Hp & _). by inversion Hp. }
  { simpl. intros p1 p2 H1 H2.
    apply list_elem_of_fmap in H1 as (t1 & -> & H1).
    apply list_elem_of_fmap in H2 as (t2 & -> & H2).
    apply Hfree; apply list_elem_of_fmap.
    - exists t1.1. split; [done |]. apply list_elem_of_fmap. by exists t1.
    - exists t2.1. split; [done |]. apply list_elem_of_fmap. by exists t2. }
  assert (keep_first [] ts = ts) as Hk.
  { apply keep_first_all.
    - rewrite <- !list_fmap_compose in Hn.
      erewrite list_fmap_ext; [exact Hn |]. by intros _ [[d m] x] _.
    - intros t _ H. by inversion H. }
  simpl in Hd, Hm, Hx. rewrite Hk in Hd, Hm, Hx. done.
Qed.

End RetrieverCalls.

Lemma retrieve_documents_embedding_down_witness :
  result (retrieve_documents demo_runtime embedding_down_services
            [u "q1"; u "q2"] 12) init
  = {| documents := []; metadatas := []; distances := [] |}
  /\ query_calls (after (retrieve_documents demo_runtime embedding_down_services
                           [u "q1"; u "q2"] 12) init) = query_calls init.
Proof.
  apply (retrieve_documents_embedding_down demo_runtime embedding_down_services
           [u "q1"; u "q2"] 12 init).
  intros k q v. discriminate.
Defined.

Lemma retrieve_documents_keeps_distinct_witness :
  documents (result (retrieve_documents demo_runtime distinct_services
                       [u "q1"; u "q2"] 12) init)
  = [u "alpha doc"; u "beta doc"; u "gamma doc"].
Proof.
  destruct (retrieve_documents_keeps_distinct demo_runtime distinct_services
              [u "q1"; u "q2"] 12 init) as (Hd & _ & _).
  - intros d1 d2 H1 H2. vm_compute in H1, H2.
    repeat (apply elem_of_cons in H1 as [-> | H1]);
      try (by inversion H1);
      repeat (apply elem_of_cons in H2 as [-> | H2]);
      try (by inversion H2); vm_compute; congruence.
  - vm_compute. repeat constructor; intros H;
      repeat (apply elem_of_cons in H as [H | H]; [discriminate |]);
      by inversion H.
  - rewrite Hd. vm_compute. reflexivity.
Defined.

(** ** More on the reranking stage *)

Section RerankMore.

Variable sv : services.

Lemma sort_insert_sorted {A} (before : A -> A -> bool) (R : relation A) :
  (forall x y, before y x = true -> R y x) ->
  (forall x y, before y x = false -> R x y) ->
  Transitive R ->
  forall x l, StronglySorted R l -> StronglySorted R (sort_insert before x l).
Proof.
  intros Ht Hf Htrans x l. induction l as [|y r IH]; intros Hs; simpl.
  - by repeat constructor.
  - apply StronglySorted_inv in Hs as [Hs Hall].
    destruct (before y x) eqn:E.
    + constructor; [by apply IH |].
      rewrite sort_insert_perm. constructor; [by apply Ht | done].
    + constructor; [by constructor |].
      constructor; [by apply Hf |].
      eapply Forall_impl; [exact Hall |]. intros z Hz. simpl in Hz.
      etrans; [by apply Hf | done].
Qed.

Lemma stable_sort_sorted {A} (before : A -> A -> bool) (R : relation A) :
  (forall x y, before y x = true -> R y x) ->
  (forall x y, before y x = false -> R x y) ->
  Transitive R ->
  forall l, StronglySorted R (stable_sort before l).
Proof.
  intros Ht Hf Htrans l. induction l as [|x l IH]; simpl; [constructor |].
  by apply sort_insert_sorted.
Qed.

(** Elements that the order cannot tell from [x] are not passed over when
    [x] is inserted. *)
Lemma sort_insert_filter {A} (before : A -> A -> bool) (P : A -> Prop)
    `{!forall a, Decision (P a)} x l :
  (P x -> forall y, P y -> before y x = false) ->
  filter P (sort_insert before x l) = filter P (x :: l).
Proof.
  intros Hp. induction l as [|y r IH]; simpl; [done |].
  destruct (before y x) eqn:E; [| done].
  rewrite filter_cons, IH. rewrite !filter_cons.
  destruct (decide (P y)) as [Hy | Hy]; [| done].
  destruct (decide (P x)) as [Hx | Hx]; [| done].
  rewrite (Hp Hx y Hy) in E. done.
Qed.

Lemma stable_sort_filter {A} (before : A -> A -> bool) (P : A -> Prop)
    `{!forall a, Decision (P a)} l :
  (forall x y, P x -> P y -> before y x = false) ->
  filter P (stable_sort before l) = filter P l.
Proof.
  intros Hp. induction l as [|x l IH]; simpl; [done |].
  rewrite sort_insert_filter by (intros Hx y Hy; by apply Hp).
  by rewrite !filter_cons, IH.
Qed.

Lemma Qltb_false x y : Qltb x y = false <-> (y <= x)%Q.
Proof.
  unfold Qltb. rewrite negb_false_iff. apply Qle_bool_iff.
Qed.

(** The scored documents come out by falling score. *)
Lemma sorted_doc_scores_sorted docs scores :
  StronglySorted (fun a b : list N * Q => (b.2 <= a.2)%Q)
    (sorted_doc_scores docs scores).
Proof.
  unfold sorted_doc_scores. apply stable_sort_sorted.
  - intros x y H. apply Qltb_lt in H. by apply Qlt_le_weak.
  - intros x y H. by apply Qltb_false in H.
  - intros a b c Hab Hbc. by eapply Qle_trans.
Qed.

(** X10: documents of equal score keep the order of the input. *)
Theorem sorted_doc_scores_stable docs scores (s : Q) :
  filter (fun p : list N * Q => Is_true (Qeq_bool p.2 s))
    (sorted_doc_scores docs scores)
  = filter (fun p : list N * Q => Is_true (Qeq_bool p.2 s)) (zip docs scores).
Proof.
  unfold sorted_doc_scores. apply stable_sort_filter.
  intros x y Hx Hy. apply Is_true_true, Qeq_bool_iff in Hx.
  apply Is_true_true, Qeq_bool_iff in Hy.
  apply Qltb_false. rewrite Hx, Hy. apply Qle_refl.
Qed.

Lemma similarity_order_length docs k :
  length (similarity_order docs k) = length (slice_to docs k).
Proof.
  rewrite <- (similarity_order_fst docs k). by rewrite length_fmap.
Qed.

Lemma rank_by_scores_length docs scores k :
  (length (rank_by_scores docs scores k) <= length docs)%nat
  /\ (0 <= k -> (length (rank_by_scores docs scores k) <= Z.to_nat k)%nat).
Proof.
  unfold rank_by_scores. destruct (forallb _ _).
  - rewrite similarity_order_length. split.
    + apply sublist_length, slice_to_sublist.
    + apply slice_to_length.
  - rewrite length_fmap. split.
    + etrans; [apply sublist_length, slice_to_sublist |].
      unfold sorted_doc_scores. rewrite stable_sort_perm.
      rewrite length_zip_with. lia.
    + apply slice_to_length.
Qed.

Lemma rerank_documents_bound query docs k w :
  (length (result (rerank_documents sv query docs k) w) <= length docs)%nat
  /\ (0 <= k ->
      (length (result (rerank_documents sv query docs k) w) <= Z.to_nat k)%nat).
Proof.
  assert ((length (similarity_order docs k) <= length docs)%nat
          /\ (0 <= k -> (length (similarity_order docs k) <= Z.to_nat k)%nat)) as Hsim.
  { rewrite similarity_order_length. split.
    - apply sublist_length, slice_to_sublist.
    - apply slice_to_length. }
  unfold result, rerank_documents.
  destruct docs as [|d docs]; [exact Hsim |].
  destruct (reranker sv) as [predict|]; [| exact Hsim].
  rewrite bind_run. simpl. destruct (predict _); [exact Hsim |].
  apply rank_by_scores_length.
Qed.

(** X7: the contract of the stage: never more pairs than documents given,
    and never more than [top_k] when [top_k] is not negative. *)
Theorem rerank_documents_length query docs k w :
  (length (result (rerank_documents sv query docs k) w) <= length docs)%nat
  /\ (0 <= k ->
      (length (result (rerank_documents sv query docs k) w) <= Z.to_nat k)%nat).
Proof. apply rerank_documents_bound. Qed.

(** X8: when the cross-encoder raises, the stage answers as if there were none:
    the first [top_k] documents in the order given, with their positions. *)
Theorem rerank_documents_scoring_fails query docs k w predict e :
  reranker sv = Some predict ->
  predict (rerank_pairs (result (query_for_ranking sv query) w) docs) = Raised e ->
  let out := result (rerank_documents sv query docs k) w in
  out.*1 = slice_to docs k
  /\ (forall i p, out !! i = Some p -> docs !! i = Some p.1 /\ p.2 = Position i).
Proof.
  intros Hrr Hpred. cbv zeta.
  assert (result (rerank_documents sv query docs k) w = similarity_order docs k) as ->.
  { unfold result, rerank_documents in *. destruct docs as [|d docs]; [done |].
    rewrite Hrr. unfold mbind, M_bind.
    destruct (query_for_ranking sv query w) as [qfr w']. simpl in *.
    by rewrite Hpred. }
  split; [apply similarity_order_fst |].
  intros i p Hp. apply similarity_order_lookup in Hp as [H1 H2].
  split; [by eapply slice_to_lookup | done].
Qed.

(** X9: when the scoring succeeds and one of the three best scores is -10 or
    more, the stage returns the first [top_k] entries of the scored
    documents, ordered by falling score, each with its own score. *)
Theorem rerank_documents_by_score query docs k w predict scores :
  docs <> [] ->
  reranker sv = Some predict ->
  predict (rerank_pairs (result (query_for_ranking sv query) w) docs) = Returned scores ->
  Exists (fun p => (-10 # 1 <= p.2)%Q) (take 3 (sorted_doc_scores docs scores)) ->
  exists ranked,
    ranked ≡ₚ zip docs scores
    /\ StronglySorted (fun a b : list N * Q => (b.2 <= a.2)%Q) ranked
    /\ result (rerank_documents sv query docs k) w
       = (fun p => (p.1, Relevance p.2)) <$> slice_to ranked k.
Proof.
  intros Hdocs Hrr Hpred Hex. exists (sorted_doc_scores docs scores).
  split; [apply stable_sort_perm |]. split; [apply sorted_doc_scores_sorted |].
  unfold result, rerank_documents in *. destruct docs as [|d docs]; [done |].
  rewrite Hrr. unfold mbind, M_bind.
  destruct (query_for_ranking sv query w) as [qfr w']. simpl in *.
  rewrite Hpred. unfold rank_by_scores.
  destruct (forallb _ _) eqn:E; [| done].
  exfalso. apply Exists_exists in Hex as (p & Hp & Hle).
  rewrite forallb_forall in E. specialize (E p).
  rewrite <- list_elem_of_In in E. specialize (E Hp).
  apply Qltb_lt in E. by apply (Qlt_not_le _ _ E).
Qed.

Lemma query_for_ranking_ascii query w :
  (forall c, c ∈ query -> (c <= 127)%N) ->
  query_for_ranking sv query w = (query, w).
Proof.
  intros Hascii. unfold query_for_ranking.
  destruct (existsb _ query) eqn:E; [| done].
  apply existsb_exists in E as (c & Hc & Hlt).
  apply list_elem_of_In, Hascii in Hc. apply N.ltb_lt in Hlt. lia.
Qed.

Lemma rerank_documents_counters query docs k w :
  let w' := after (rerank_documents sv query docs k) w in
  (w' = w
   \/ generate_calls w'
      = generate_calls w ++ [request (rerank_translate_prompt query) (3 # 10) 100])
  /\ embed_calls w' = embed_calls w
  /\ query_calls w' = query_calls w
  /\ last_retrieved_context w' = last_retrieved_context w
  /\ ((forall c, c ∈ query -> (c <= 127)%N) -> w' = w).
Proof.
  cbv zeta. unfold after, rerank_documents.
  destruct docs as [|d docs]; [by repeat split; try left |].
  destruct (reranker sv) as [predict|]; [| by repeat split; try left].
  rewrite bind_run. simpl.
  split; [| split; [| split; [| split]]].
  - unfold query_for_ranking. destruct (existsb _ query); [right | left]; done.
  - unfold query_for_ranking. by destruct (existsb _ query).
  - unfold query_for_ranking. by destruct (existsb _ query).
  - unfold query_for_ranking. by destruct (existsb _ query).
  - intros Hascii. by rewrite query_for_ranking_ascii.
Qed.

(** X11: the stage makes at most one generative call, the translation of
    the query, and none for a query of ASCII characters only; it never asks
    for an embedding, never queries the vector store and never touches the
    stored context. *)
Theorem rerank_documents_calls query docs k w :
  let w' := after (rerank_documents sv query docs k) w in
  (w' = w
   \/ generate_calls w'
      = generate_calls w ++ [request (rerank_translate_prompt query) (3 # 10) 100])
  /\ embed_calls w' = embed_calls w
  /\ query_calls w' = query_calls w
  /\ last_retrieved_context w' = last_retrieved_context w
  /\ ((forall c, c ∈ query -> (c <= 127)%N) -> w' = w).
Proof. apply rerank_documents_counters. Qed.

End RerankMore.

Lemma rerank_documents_scoring_fails_witness :
  let out := result (rerank_documents raising_reranker_services (u "why") demo_docs 3) init in
  out.*1 = slice_to demo_docs 3
  /\ (forall i p, out !! i = Some p -> demo_docs !! i = Some p.1 /\ p.2 = Position i).
Proof.
  apply (rerank_documents_scoring_fails raising_reranker_services (u "why") demo_docs 3
           init raising_predict {| exc_str := u "CUDA out of memory" |}).
  - reflexivity.
  - reflexivity.
Defined.

Lemma rerank_documents_by_score_witness :
  exists ranked,
    ranked ≡ₚ zip demo_docs confident_scores
    /\ StronglySorted (fun a b : list N * Q => (b.2 <= a.2)%Q) ranked
    /\ result (rerank_documents scoring_services (u "why") demo_docs 2) init
       = (fun p => (p.1, Relevance p.2)) <$> slice_to ranked 2.
Proof.
  apply (rerank_documents_by_score scoring_services (u "why") demo_docs 2 init
           confident_predict confident_scores).
  - discriminate.
  - reflexivity.
  - reflexivity.
  - vm_compute. left. discriminate.
Defined.

(** ** More on the context and the answer *)

Section AnswerMore.

Variable rt : runtime.
Variable sv : services.

Lemma final_documents_length query r w :
  (length (result (final_documents sv query r) w) <= 6)%nat.
Proof.
  unfold result, final_documents. destruct (reranker sv) as [predict|].
  - rewrite bind_run. simpl. rewrite length_fmap.
    by apply (rerank_documents_bound sv query (documents r) 6 w).
  - simpl. rewrite length_fmap. by apply (slice_to_length _ 6).
Qed.

Lemma final_documents_after query r w :
  let w' := after (final_documents sv query r) w in
  (length (generate_calls w) <= length (generate_calls w')
   <= S (length (generate_calls w)))%nat
  /\ embed_calls w' = embed_calls w
  /\ query_calls w' = query_calls w
  /\ last_retrieved_context w' = last_retrieved_context w.
Proof.
  cbv zeta. unfold after, final_documents. destruct (reranker sv) as [predict|].
  - rewrite bind_run. simpl.
    destruct (rerank_documents_counters sv query (documents r) 6 w)
      as ([Heq | Heq] & H2 & H3 & H4 & _); unfold after in *.
    + rewrite Heq. repeat split; lia.
    + rewrite Heq, length_app. simpl. repeat split; try done; lia.
  - simpl. repeat split; lia.
Qed.

(** X12: the context is the join of at most six retrieved documents. *)
Theorem retrieve_context_at_most_six query w :
  let expand := generate_multi_queries rt sv query in
  let retrieved := retrieve_documents rt sv (result expand w) 12 in
  exists final,
    (length final <= 6)%nat
    /\ Forall (fun d => d ∈ documents (result retrieved (after expand w))) final
    /\ result (retrieve_context rt sv query) w = join context_separator final.
Proof.
  cbv zeta. unfold result at 3. unfold retrieve_context. rewrite !bind_run.
  fold (result (generate_multi_queries rt sv query) w).
  fold (after (generate_multi_queries rt sv query) w).
  set (qs := result (generate_multi_queries rt sv query) w).
  set (w1 := after (generate_multi_queries rt sv query) w).
  fold (result (retrieve_documents rt sv qs 12) w1).
  fold (after (retrieve_documents rt sv qs 12) w1).
  set (r := result (retrieve_documents rt sv qs 12) w1).
  set (w2 := after (retrieve_documents rt sv qs 12) w1).
  destruct (documents r) as [|d ds] eqn:Hd.
  - exists []. simpl. repeat split; [lia | done].
  - rewrite !bind_run. simpl.
    exists (result (final_documents sv query r) w2).
    split; [apply final_documents_length |]. split; [| done].
    rewrite <- Hd. apply final_documents_docs.
Qed.

(** X13: without a reranker the documents of the context are the (at most six)
    nearest ones: the documents and distances retrieved, paired and ordered
    by rising distance, equal distances in the order retrieved. *)
Theorem final_documents_nearest query r w :
  reranker sv = None ->
  exists ranked,
    ranked ≡ₚ zip (documents r) (distances r)
    /\ StronglySorted (fun a b : list N * Q => (a.2 <= b.2)%Q) ranked
    /\ (forall x : Q,
          filter (fun p : list N * Q => Is_true (Qeq_bool p.2 x)) ranked
          = filter (fun p : list N * Q => Is_true (Qeq_bool p.2 x))
              (zip (documents r) (distances r)))
    /\ result (final_documents sv query r) w = (take 6 ranked).*1.
Proof.
  intros Hrr.
  exists (stable_sort (fun y x : list N * Q => Qltb y.2 x.2)
            (zip (documents r) (distances r))).
  split; [apply stable_sort_perm |]. split; [| split].
  - apply stable_sort_sorted.
    + intros x y H. apply Qltb_lt in H. by apply Qlt_le_weak.
    + intros x y H. by apply Qltb_false in H.
    + intros a b c Hab Hbc. by eapply Qle_trans.
  - intros x. apply stable_sort_filter. intros a b Ha Hb.
    apply Is_true_true, Qeq_bool_iff in Ha. apply Is_true_true, Qeq_bool_iff in Hb.
    apply Qltb_false. rewrite Ha, Hb. apply Qle_refl.
  - unfold result, final_documents. rewrite Hrr. simpl.
    by rewrite (slice_to_nonneg _ 6).
Qed.

Lemma generate_multi_queries_counters query w :
  let w' := after (generate_multi_queries rt sv query) w in
  length (generate_calls w') = (length (generate_calls w) + 2)%nat
  /\ embed_calls w' = embed_calls w
  /\ query_calls w' = query_calls w
  /\ last_retrieved_context w' = last_retrieved_context w.
Proof.
  cbv zeta. unfold after, generate_multi_queries. rewrite !bind_run. simpl.
  rewrite !length_app. simpl. repeat split; lia.
Qed.

Lemma generate_multi_queries_length query w :
  (1 <= length (result (generate_multi_queries rt sv query) w) <= 4)%nat.
Proof.
  destruct (generate_multi_queries_result rt sv query w) as [response ->].
  apply collect_queries_shape.
Qed.

Lemma retrieve_context_run query w :
  let expand := generate_multi_queries rt sv query in
  let retrieved := retrieve_documents rt sv (result expand w) 12 in
  let r := result retrieved (after expand w) in
  let w2 := after retrieved (after expand w) in
  documents r <> [] ->
  retrieve_context rt sv query w
  = (join context_separator (result (final_documents sv query r) w2),
     {| generate_calls := generate_calls (after (final_documents sv query r) w2);
        embed_calls := embed_calls (after (final_documents sv query r) w2);
        query_calls := query_calls (after (final_documents sv query r) w2);
        last_retrieved_context :=
          join context_separator (result (final_documents sv query r) w2) |}).
Proof.
  cbv zeta. unfold result, after, retrieve_context. intros Hd.
  rewrite !bind_run.
  destruct (documents _) as [|d ds]; [done |].
  by rewrite !bind_run.
Qed.

Lemma retrieve_context_result query w :
  let expand := generate_multi_queries rt sv query in
  let retrieved := retrieve_documents rt sv (result expand w) 12 in
  let r := result retrieved (after expand w) in
  let w2 := after retrieved (after expand w) in
  documents r <> [] ->
  result (retrieve_context rt sv query) w
  = join context_separator (result (final_documents sv query r) w2)
  /\ last_retrieved_context (after (retrieve_context rt sv query) w)
     = join context_separator (result (final_documents sv query r) w2)
  /\ generate_calls (after (retrieve_context rt sv query) w)
     = generate_calls (after (final_documents sv query r) w2)
  /\ embed_calls (after (retrieve_context rt sv query) w)
     = embed_calls (after (final_documents sv query r) w2)
  /\ query_calls (after (retrieve_context rt sv query) w)
     = query_calls (after (final_documents sv query r) w2).
Proof.
  intros expand retrieved r w2 Hd.
  pose proof (retrieve_context_run query w Hd) as Hrun. cbv zeta in Hrun.
  fold expand in Hrun. fold retrieved in Hrun. fold r in Hrun. fold w2 in Hrun.
  assert (result (retrieve_context rt sv query) w
          = (retrieve_context rt sv query w).1) as -> by done.
  assert (after (retrieve_context rt sv query) w
          = (retrieve_context rt sv query w).2) as -> by done.
  by rewrite Hrun.
Qed.

Lemma answer_after query history w :
  let ctx := result (retrieve_context rt sv query) w in
  let w3 := after (retrieve_context rt sv query) w in
  let w' := after (answer rt sv query history) w in
  last_retrieved_context w' = last_retrieved_context w3
  /\ embed_calls w' = embed_calls w3
  /\ query_calls w' = query_calls w3
  /\ generate_calls w'
     = generate_calls w3
       ++ match ctx with
          | [] => []
          | _ :: _ => [request (system_prompt history ctx query) (3 # 10) 2048]
          end.
Proof.
  cbv zeta. unfold result, after, answer. rewrite bind_run.
  destruct ((retrieve_context rt sv query w).1) as [|c ctx].
  - simpl. by rewrite app_nil_r.
  - rewrite bind_run. simpl. done.
Qed.

(** X14: when something was retrieved, [retrieve_context] leaves the context it
    returns in [last_retrieved_context], and the rest of [answer] does not
    change it: after [answer] the field holds the context of this call. *)
Theorem answer_stores_context query history w :
  let expand := generate_multi_queries rt sv query in
  let retrieved := retrieve_documents rt sv (result expand w) 12 in
  documents (result retrieved (after expand w)) <> [] ->
  last_retrieved_context (after (retrieve_context rt sv query) w)
  = result (retrieve_context rt sv query) w
  /\ last_retrieved_context (after (answer rt sv query history) w)
     = result (retrieve_context rt sv query) w.
Proof.
  cbv zeta. intros Hd.
  destruct (retrieve_context_result query w Hd) as (H1 & H2 & _).
  destruct (answer_after query history w) as (A1 & _).
  rewrite A1, H2, H1. done.
Qed.

(** X15: one call of [answer] makes between two and four generative calls, at
    most four embedding calls and at most four queries of the vector
    store. *)
Theorem answer_call_budget query history w :
  let w' := after (answer rt sv query history) w in
  (length (generate_calls w) + 2 <= length (generate_calls w')
   <= length (generate_calls w) + 4)%nat
  /\ (embed_calls w <= embed_calls w' <= embed_calls w + 4)%nat
  /\ (query_calls w <= query_calls w' <= query_calls w + 4)%nat.
Proof.
  cbv zeta.
  destruct (generate_multi_queries_counters query w) as (G1 & G2 & G3 & _).
  pose proof (generate_multi_queries_length query w) as Hlen.
  destruct (retrieve_documents_counters rt sv
              (result (generate_multi_queries rt sv query) w) 12
              (after (generate_multi_queries rt sv query) w)) as (R1 & R2 & R3 & _).
  destruct (answer_after query history w) as (_ & A2 & A3 & A4).
  rewrite A2, A3, A4, length_app.
  destruct (documents (result (retrieve_documents rt sv
              (result (generate_multi_queries rt sv query) w) 12)
              (after (generate_multi_queries rt sv query) w))) as [|d ds] eqn:Hd.
  - pose proof (retrieve_context_empty rt sv query w Hd) as He. cbv zeta in He.
    assert (result (retrieve_context rt sv query) w
            = (retrieve_context rt sv query w).1) as -> by done.
    assert (after (retrieve_context rt sv query) w
            = (retrieve_context rt sv query w).2) as -> by done.
    rewrite He. simpl.
    cbv zeta in R1, R2, R3. rewrite R3. lia.
  - assert (documents (result (retrieve_documents rt sv
              (result (generate_multi_queries rt sv query) w) 12)
              (after (generate_multi_queries rt sv query) w)) <> []) as Hne
      by (by rewrite Hd).
    destruct (retrieve_context_result query w Hne) as (_ & _ & C1 & C2 & C3).
    rewrite C1, C2, C3.
    destruct (final_documents_after query
                (result (retrieve_documents rt sv
                   (result (generate_multi_queries rt sv query) w) 12)
                   (after (generate_multi_queries rt sv query) w))
                (after (retrieve_documents rt sv
                   (result (generate_multi_queries rt sv query) w) 12)
                   (after (generate_multi_queries rt sv query) w)))
      as (F1 & F2 & F3 & _).
    cbv zeta in R1, R2, R3, F1, F2, F3. rewrite R3 in F1.
    destruct (result (retrieve_context rt sv query) w); simpl; lia.
Qed.

End AnswerMore.

Lemma final_documents_nearest_witness :
  exists ranked,
    ranked ≡ₚ zip demo_docs [4 # 10; 1 # 10; 3 # 10; 1 # 10]%Q
    /\ result (final_documents no_reranker_services (u "why")
                {| documents := demo_docs; metadatas := [[]; []; []; []];
                   distances := [4 # 10; 1 # 10; 3 # 10; 1 # 10]%Q |}) init
       = (take 6 ranked).*1.
Proof.
  destruct (final_documents_nearest no_reranker_services (u "why")
              {| documents := demo_docs; metadatas := [[]; []; []; []];
                 distances := [4 # 10; 1 # 10; 3 # 10; 1 # 10]%Q |} init)
    as (ranked & Hp & _ & _ & Hr); [reflexivity |].
  exists ranked. split; [exact Hp | exact Hr].
Defined.

Lemma answer_stores_context_witness :
  last_retrieved_context
    (after (answer demo_runtime (answering_services (u "cevap")) (u "why") []) init)
  = result (retrieve_context demo_runtime (answering_services (u "cevap")) (u "why")) init.
Proof.
  apply (answer_stores_context demo_runtime (answering_services (u "cevap"))
           (u "why") [] init).
  vm_compute. discriminate.
Defined.

(** ** The prompts and the expansion *)

Section Prompts.

Variable rt : runtime.
Variable sv : services.

Local Arguments translate_prompt : simpl never.
Local Arguments variations_prompt : simpl never.
Local Arguments system_prompt : simpl never.

Lemma startswith_app p b : startswith p (p ++ b) = true.
Proof.
  induction p as [|c p IH]; simpl; [done |]. by rewrite N.eqb_refl, IH.
Qed.

Lemma contains_here p b : contains p (p ++ b) = true.
Proof.
  pose proof (startswith_app p b) as H.
  destruct (p ++ b); simpl in *; by rewrite H.
Qed.

Lemma contains_app_r p a s : contains p s = true -> contains p (a ++ s) = true.
Proof.
  intros H. induction a as [|c a IH]; simpl; [done |].
  rewrite IH. apply orb_true_r.
Qed.

Lemma system_prompt_contains history context query :
  contains history (system_prompt history context query) = true
  /\ contains context (system_prompt history context query) = true
  /\ contains query (system_prompt history context query) = true.
Proof.
  unfold system_prompt. cbn [concat].
  repeat split;
    repeat match goal with
           | |- contains ?p (?p ++ _) = true => apply contains_here
           | |- contains _ (_ ++ _) = true => apply contains_app_r
           end.
Qed.

(** X16: when the context is not empty, the last generative call of [answer] is
    the answer prompt, with temperature 0.3 and at most 2048 tokens, and its
    text holds the conversation history, the context and the query as they
    are. *)
Theorem answer_prompt_contains query history w :
  let ctx := result (retrieve_context rt sv query) w in
  ctx <> [] ->
  exists earlier req,
    generate_calls (after (answer rt sv query history) w) = earlier ++ [req]
    /\ config req = {| temperature := 3 # 10; max_output_tokens := 2048 |}
    /\ contains history (contents req) = true
    /\ contains ctx (contents req) = true
    /\ contains query (contents req) = true.
Proof.
  cbv zeta. intros Hctx.
  destruct (answer_after rt sv query history w) as (_ & _ & _ & Hg).
  cbv zeta in Hg.
  destruct (result (retrieve_context rt sv query) w) as [|c ctx] eqn:E; [done |].
  eexists _, _. split; [exact Hg |]. split; [done |].
  apply system_prompt_contains.
Qed.

(** X17: the expander makes exactly two generative calls: the translation of the
    original query, then the request for variations, which quotes the
    English form and not the original. It returns the English form followed
    by the first three candidates read from the variations, and the English
    form alone when that call raises or returns no text. *)
Theorem generate_multi_queries_run query w :
  let translation := generate_content sv (length (generate_calls w))
                       (request (translate_prompt query) (3 # 10) 100) in
  let english := english_form query translation in
  let variations := generate_content sv (S (length (generate_calls w)))
                      (request (variations_prompt english) (7 # 10) 200) in
  generate_calls (after (generate_multi_queries rt sv query) w)
  = generate_calls w ++ [ request (translate_prompt query) (3 # 10) 100;
                          request (variations_prompt english) (7 # 10) 200 ]
  /\ contains query (translate_prompt query) = true
  /\ contains (dq ++ english ++ dq) (variations_prompt english) = true
  /\ result (generate_multi_queries rt sv query) w
     = english :: match variations with
                  | Raised _ => []
                  | Returned r =>
                      match truthy_text r with
                      | None => []
                      | Some t => take 3 (parse_generated rt (strip t))
                      end
                  end.
Proof.
  cbv zeta. split; [| split; [| split]].
  - unfold after, generate_multi_queries. rewrite !bind_run.
    unfold call_generate. cbn [fst snd generate_calls]. by rewrite <- app_assoc.
  - unfold translate_prompt. cbn [concat].
    repeat match goal with
           | |- contains ?p (?p ++ _) = true => apply contains_here
           | |- contains _ (_ ++ _) = true => apply contains_app_r
           end.
  - unfold variations_prompt. cbn [concat]. apply contains_app_r.
    match goal with
    | |- contains _ (dq ++ ?e ++ dq ++ ?rest) = true =>
        replace (dq ++ e ++ dq ++ rest) with ((dq ++ e ++ dq) ++ rest)
          by (by rewrite <- !app_assoc)
    end.
    apply contains_here.
  - unfold result, generate_multi_queries. rewrite !bind_run.
    unfold call_generate. cbn [fst snd generate_calls mret M_ret].
    rewrite length_app. cbn [length]. rewrite Nat.add_1_r.
    unfold collect_queries.
    destruct (generate_content sv (S (length (generate_calls w))) _) as [e|r];
      [done |].
    destruct (truthy_text r) as [t|]; [| done].
    by rewrite slice_to_nonneg.
Qed.

Lemma lstrip_with_all p s : Forall (fun c => p c = true) s -> lstrip_with p s = [].
Proof.
  induction 1 as [|c s Hc _ IH]; simpl; [done |]. by rewrite Hc.
Qed.

(** X18: a line that begins with a digit and is made only of digits, dots,
    dashes and spaces gives no query. *)
Theorem parse_line_only_numbering line c r :
  strip line = c :: r ->
  isdigit rt c = true ->
  Forall (fun x => char_in numbering_chars x = true) (strip line) ->
  parse_line rt line = None.
Proof.
  intros Hs Hd Hall. unfold parse_line.
  destruct line as [|l0 line]; [done |].
  unfold lstrip_chars. rewrite (lstrip_with_all _ _ Hall).
  rewrite Hs, Hd. simpl negb. cbv iota.
  by destruct (3 <? length (c :: r))%nat.
Qed.

End Prompts.

Lemma answer_prompt_contains_witness :
  exists earlier req,
    generate_calls (after (answer demo_runtime (answering_services (u "cevap"))
                             (u "why") (u "User: selam")) init) = earlier ++ [req]
    /\ contains (u "User: selam") (contents req) = true.
Proof.
  destruct (answer_prompt_contains demo_runtime (answering_services (u "cevap"))
              (u "why") (u "User: selam") init)
    as (earlier & req & H1 & _ & H2 & _).
  - vm_compute. discriminate.
  - exists earlier, req. split; [exact H1 | exact H2].
Defined.

Lemma parse_line_only_numbering_witness :
  parse_line demo_runtime (u " 12. - 3 ") = None.
Proof.
  apply (parse_line_only_numbering demo_runtime (u " 12. - 3 ") 49%N (u "2. - 3")).
  - vm_compute. reflexivity.
  - reflexivity.
  - vm_compute. repeat constructor.
Defined.

(** ** The caller *)

Section Caller.

Lemma drop_reverse_take {A} (l : list A) n :
  drop (length (reverse (take (S n) l)) - n) (reverse (take (S n) l))
  = reverse (take n l).
Proof.
  rewrite length_reverse, length_take.
  destruct (decide (length l <= n)%nat) as [Hle | Hgt].
  - assert ((S n `min` length l - n)%nat = 0%nat) as -> by lia.
    by rewrite !take_ge by lia.
  - assert ((S n `min` length l - n)%nat = 1%nat) as -> by lia.
    destruct (l !! n) as [x|] eqn:E.
    + rewrite (take_S_r l n x E), reverse_app. done.
    + apply lookup_ge_None in E. lia.
Qed.

(** X19: the memory appended to a message holds the fourteen newest messages of
    the session, oldest first, one line each; the fifteenth that is fetched
    is never used. Without stored messages the message goes out as it is. *)
Theorem memory_context_fourteen user_message by_newest :
  enhanced_message user_message [] = user_message
  /\ (by_newest <> [] ->
      enhanced_message user_message by_newest
      = user_message ++ nl ++ nl ++ u "Önceki konuşma geçmişi:" ++ nl
        ++ join nl (memory_part <$> reverse (take 14 by_newest))).
Proof.
  split; [unfold enhanced_message; simpl; by rewrite app_nil_r |].
  intros Hne. unfold enhanced_message, memory_context.
  destruct by_newest as [|m ms]; [done |].
  destruct (memory_part <$> reverse (take 15 (m :: ms))) as [|p ps] eqn:E.
  { apply fmap_nil_inv in E. apply (f_equal length) in E.
    rewrite length_reverse in E. simpl in E. lia. }
  rewrite <- E. rewrite length_fmap, <- fmap_drop.
  by rewrite (drop_reverse_take (m :: ms) 14).
Qed.

End Caller.

Section Title.

Lemma lstrip_with_fixed p (s : list N) :
  (forall c r, s = c :: r -> p c = false) -> lstrip_with p s = s.
Proof.
  destruct s as [|c r]; [done |]. intros H. simpl. by rewrite (H c r).
Qed.

Lemma lstrip_with_idemp p (s : list N) :
  lstrip_with p (lstrip_with p s) = lstrip_with p s.
Proof.
  apply lstrip_with_fixed. intros c r H. by apply lstrip_with_head in H.
Qed.

Lemma rstrip_with_last p (a : list N) c :
  p c = false -> rstrip_with p (a ++ [c]) = a ++ [c].
Proof.
  intros H. unfold rstrip_with. rewrite reverse_app. simpl. rewrite H.
  change (c :: reverse a) with (reverse [c] ++ reverse a).
  by rewrite <- reverse_app, reverse_involutive.
Qed.

Lemma strip_idemp s : strip (strip s) = strip s.
Proof.
  unfold strip at 1.
  rewrite (lstrip_with_fixed isspace (strip s))
    by (intros c r H; by apply strip_head in H).
  unfold strip, rstrip_with. rewrite reverse_involutive.
  by rewrite lstrip_with_idemp.
Qed.

Lemma strip_truncated s :
  (50 < length (strip s))%nat ->
  strip (take 47 (strip s) ++ u "...") = take 47 (strip s) ++ u "...".
Proof.
  intros Hlen. unfold strip at 1.
  rewrite lstrip_with_fixed.
  - change (u "...") with ([46; 46]%N ++ [46%N]). rewrite app_assoc.
    by apply rstrip_with_last.
  - intros c r H. destruct (strip s) as [|c0 r0] eqn:E; [simpl in Hlen; lia |].
    simpl in H. injection H as <- _. by apply strip_head in E.
Qed.

Lemma session_title_cases now_label first_message :
  let s := strip first_message in
  ((50 < length s)%nat ->
     generate_session_title now_label first_message = take 47 s ++ u "..."
     /\ length (generate_session_title now_label first_message) = 50%nat)
  /\ ((3 <= length s <= 50)%nat ->
     generate_session_title now_label first_message = s)
  /\ ((length s < 3)%nat ->
     generate_session_title now_label first_message = u "Chat " ++ now_label).
Proof.
  cbv zeta. unfold generate_session_title. split; [| split]; intros Hlen.
  - destruct (Nat.ltb_spec 50 (length (strip first_message))); [| lia].
    rewrite strip_truncated by done.
    assert (length (take 47 (strip first_message) ++ u "...") = 50%nat) as Hl.
    { rewrite length_app, length_take. change (length (u "...")) with 3%nat. lia. }
    rewrite Hl. done.
  - destruct (Nat.ltb_spec 50 (length (strip first_message))); [lia |].
    rewrite strip_idemp.
    by destruct (Nat.ltb_spec (length (strip first_message)) 3); [lia |].
  - destruct (Nat.ltb_spec 50 (length (strip first_message))); [lia |].
    rewrite strip_idemp.
    by destruct (Nat.ltb_spec (length (strip first_message)) 3); [| lia].
Qed.

(** X20: a title is the stripped first message when that has three to fifty
    characters, its first 47 characters followed by three dots (fifty in
    all) when it is longer, and the dated default when it is shorter. *)
Theorem generate_session_title_cases now_label first_message :
  let s := strip first_message in
  ((50 < length s)%nat ->
     generate_session_title now_label first_message = take 47 s ++ u "..."
     /\ length (generate_session_title now_label first_message) = 50%nat)
  /\ ((3 <= length s <= 50)%nat ->
     generate_session_title now_label first_message = s)
  /\ ((length s < 3)%nat ->
     generate_session_title now_label first_message = u "Chat " ++ now_label).
Proof. apply session_title_cases. Qed.

(** X21: with the eleven characters of the date and time, a title has between
    three and fifty characters. *)
Theorem generate_session_title_length now_label first_message :
  length now_label = 11%nat ->
  (3 <= length (generate_session_title now_label first_message) <= 50)%nat.
Proof.
  intros Hlabel.
  destruct (session_title_cases now_label first_message) as (H1 & H2 & H3).
  cbv zeta in *.
  destruct (decide (50 < length (strip first_message))%nat) as [Hl | Hl].
  - destruct (H1 Hl) as [_ ->]. lia.
  - destruct (decide (length (strip first_message) < 3)%nat) as [Hs | Hs].
    + rewrite (H3 Hs), length_app, Hlabel.
      change (length (u "Chat ")) with 5%nat. lia.
    + rewrite H2 by lia. lia.
Qed.

End Title.

Section Quota.

Lemma messages_after_increments nows : forall stats,
  monthly_messages_sent
    (foldl (fun s now => increment_message_count now s) stats nows)
  = monthly_messages_sent stats + Z.of_nat (length nows)
  /\ total_messages_sent
       (foldl (fun s now => increment_message_count now s) stats nows)
     = total_messages_sent stats + Z.of_nat (length nows).
Proof.
  induction nows as [|now nows IH]; intros stats; simpl; [lia |].
  destruct (IH (increment_message_count now stats)) as [-> ->]. simpl. lia.
Qed.

Lemma check_monthly_limits_free stats :
  check_monthly_limits (u "free") stats = (monthly_messages_sent stats <? 50).
Proof. unfold check_monthly_limits. by destruct (decide _). Qed.

Lemma check_monthly_limits_basic stats :
  check_monthly_limits (u "basic") stats = (monthly_messages_sent stats <? 500).
Proof.
  unfold check_monthly_limits.
  destruct (decide (u "basic" = u "free")) as [H|_]; [by vm_compute in H |].
  by destruct (decide _).
Qed.

Lemma check_monthly_limits_premium stats :
  check_monthly_limits (u "premium") stats = true.
Proof.
  unfold check_monthly_limits.
  destruct (decide (u "premium" = u "free")) as [H|_]; [by vm_compute in H |].
  destruct (decide (u "premium" = u "basic")) as [H|_]; [by vm_compute in H |].
  by destruct (decide _).
Qed.

(** X22: counting messages as [SendMessageView.post] does: after further
    messages a free account may send another one exactly while fewer than
    50 were sent in the month, a basic account while fewer than 500, a
    premium account always, and an account of any other type never. *)
Theorem check_monthly_limits_after_messages stats nows user_subscription :
  let stats' := foldl (fun s now => increment_message_count now s) stats nows in
  let sent := monthly_messages_sent stats + Z.of_nat (length nows) in
  monthly_messages_sent stats' = sent
  /\ check_monthly_limits (u "free") stats' = (sent <? 50)
  /\ check_monthly_limits (u "basic") stats' = (sent <? 500)
  /\ check_monthly_limits (u "premium") stats' = true
  /\ (user_subscription <> u "free" -> user_subscription <> u "basic" ->
      user_subscription <> u "premium" ->
      check_monthly_limits user_subscription stats' = false).
Proof.
  cbv zeta. destruct (messages_after_increments nows stats) as [Hm _].
  rewrite check_monthly_limits_free, check_monthly_limits_basic,
    check_monthly_limits_premium, Hm.
  repeat split. intros H1 H2 H3. unfold check_monthly_limits.
  by repeat destruct (decide _).
Qed.

(** X23: what the usage view reports: for a free or a basic account the limit is
    reached exactly when no message remains; a premium account has no limit
    and never reaches one; an account of any other type is shown without a
    limit and yet has always reached it. *)
Theorem usage_view_limits stats user_subscription :
  (is_limit_reached (u "free") stats = true
     <-> remaining_messages (u "free") stats = Some 0)
  /\ (is_limit_reached (u "basic") stats = true
     <-> remaining_messages (u "basic") stats = Some 0)
  /\ (monthly_limit (u "premium") = None
     /\ remaining_messages (u "premium") stats = None
     /\ is_limit_reached (u "premium") stats = false)
  /\ (user_subscription <> u "free" -> user_subscription <> u "basic" ->
      user_subscription <> u "premium" ->
      monthly_limit user_subscription = None
      /\ remaining_messages user_subscription stats = None
      /\ is_limit_reached user_subscription stats = true).
Proof.
  unfold is_limit_reached.
  rewrite check_monthly_limits_free, check_monthly_limits_basic,
    check_monthly_limits_premium.
  assert (monthly_limit (u "free") = Some 50) as Hf.
  { unfold monthly_limit. by destruct (decide _). }
  assert (monthly_limit (u "basic") = Some 500) as Hb.
  { unfold monthly_limit.
    destruct (decide (u "basic" = u "free")) as [H|_]; [by vm_compute in H |].
    by destruct (decide _). }
  assert (monthly_limit (u "premium") = None) as Hp.
  { unfold monthly_limit.
    destruct (decide (u "premium" = u "free")) as [H|_]; [by vm_compute in H |].
    by destruct (decide (u "premium" = u "basic")) as [H|_]; [vm_compute in H |]. }
  unfold remaining_messages. rewrite Hf, Hb, Hp.
  split; [| split; [| split]].
  - destruct (decide (50 = 0)); [lia |]. rewrite negb_true_iff, Z.ltb_ge.
    split; [intros H; f_equal; lia | intros [= H]; lia].
  - destruct (decide (500 = 0)); [lia |]. rewrite negb_true_iff, Z.ltb_ge.
    split; [intros H; f_equal; lia | intros [= H]; lia].
  - done.
  - intros H1 H2 H3. unfold monthly_limit, check_monthly_limits.
    by repeat destruct (decide _).
Qed.

End Quota.

Lemma generate_session_title_length_witness :
  (3 <= length (generate_session_title (u "04/11 18:30") (u "  Hipergami nedir?  ")) <= 50)%nat.
Proof.
  apply (generate_session_title_length (u "04/11 18:30") (u "  Hipergami nedir?  ")).
  reflexivity.
Defined.

(** ** The properties above, at concrete inputs *)

Lemma rerank_documents_length_witness :
  (length (result (rerank_documents scoring_services (u "why") demo_docs 2) init)
   <= Z.to_nat 2)%nat.
Proof.
  apply (rerank_documents_length scoring_services (u "why") demo_docs 2 init).
  lia.
Defined.

Lemma rerank_documents_calls_witness :
  after (rerank_documents scoring_services (u "Why?") demo_docs 2) init = init.
Proof.
  apply (rerank_documents_calls scoring_services (u "Why?") demo_docs 2 init).
  intros c Hc. vm_compute in Hc.
  repeat (apply elem_of_cons in Hc as [-> | Hc]; [vm_compute; discriminate |]).
  by inversion Hc.
Defined.

Lemma memory_context_fourteen_witness :
  enhanced_message (u "Peki neden?") demo_session
  = u "Peki neden?" ++ nl ++ nl ++ u "Önceki konuşma geçmişi:" ++ nl
    ++ join nl (memory_part <$> reverse (take 14 demo_session)).
Proof.
  apply (memory_context_fourteen (u "Peki neden?") demo_session).
  discriminate.
Defined.

Lemma generate_session_title_cases_witness :
  generate_session_title (u "04/11 18:30") (u "  ok ") = u "Chat 04/11 18:30".
Proof.
  apply (generate_session_title_cases (u "04/11 18:30") (u "  ok ")).
  vm_compute. lia.
Defined.

Lemma check_monthly_limits_after_messages_witness :
  check_monthly_limits (u "pro")
    (foldl (fun s now => increment_message_count now s) fresh_stats [1; 2]) = false.
Proof.
  apply (check_monthly_limits_after_messages fresh_stats [1; 2] (u "pro"));
    vm_compute; discriminate.
Defined.

Lemma usage_view_limits_witness :
  monthly_limit (u "pro") = None
  /\ remaining_messages (u "pro") fresh_stats = None
  /\ is_limit_reached (u "pro") fresh_stats = true.
Proof.
  apply (usage_view_limits fresh_stats (u "pro")); vm_compute; discriminate.
Defined.

Example memory_drops_the_oldest :
  length (split_on 10%N (memory_context demo_session)) = 17%nat
  /\ last (split_on 10%N (memory_context demo_session)) = Some (u "User: 0")
  /\ split_on 10%N (memory_context demo_session) !! 3%nat = Some (u "Assistant: =").
Proof. vm_compute. repeat split. Qed.

Example free_account_runs_out :
  check_monthly_limits (u "free")
    (foldl (fun s now => increment_message_count now s) fresh_stats [1]) = true
  /\ check_monthly_limits (u "free")
       (foldl (fun s now => increment_message_count now s) fresh_stats [1; 2]) = false
  /\ remaining_messages (u "free")
       (foldl (fun s now => increment_message_count now s) fresh_stats [1; 2]) = Some 0.
Proof. vm_compute. repeat split. Qed.

Example title_of_long_message :
  generate_session_title (u "04/11 18:30")
    (u "Kadınlar neden hipergamiktir ve bu durum evlilikleri nasıl etkiler?")
  = u "Kadınlar neden hipergamiktir ve bu durum evlili...".
Proof. vm_compute. reflexivity. Qed.
